(** * mockdns: record normalisation, query resolution and proxy forwarding

    A shallow embedding of the Go program (types.go and the two entry
    points) together with the properties its specification states.

    Conventions.
    - A Go [string] is a Rocq [string] (a sequence of bytes).
    - A Go [map] that is only looked up and updated by key is a [gmap].
      A [range] over a Go map visits the entries in an unspecified order:
      wherever the program ranges over a map, the visiting order is an
      explicit argument (an association list in the order visited).
    - The DNS library (RR construction, message helpers, the client), the
      JSON decoder and the Unicode-aware case functions of the Go standard
      library are collaborators: they are variables of the section, and the
      few facts the proofs rely on are stated as hypotheses. *)

From Stdlib Require Import String Ascii ZArith Lia.
From stdpp Require Import base option list strings gmap fin_maps.

Local Open Scope string_scope.
Local Open Scope Z_scope.
Local Open Scope list_scope.

(** ** Go standard library: the string helpers the program calls *)

Module strings.

(** [s[n:]] *)
Fixpoint drop (n : nat) (s : string) : string :=
  match n, s with
  | O, _ => s
  | S _, EmptyString => EmptyString
  | S n', String _ s' => drop n' s'
  end.

(** [strings.HasSuffix]:
    [len(s) >= len(suffix) && s[len(s)-len(suffix):] == suffix] *)
Definition HasSuffix (s suffix : string) : bool :=
  (String.length suffix <=? String.length s)%nat
  && String.eqb (drop (String.length s - String.length suffix) s) suffix.

(** [strings.Join] *)
Fixpoint Join (elems : list string) (sep : string) : string :=
  match elems with
  | [] => ""
  | [x] => x
  | x :: rest => x +:+ sep +:+ Join rest sep
  end.

(** [strings.TrimLeft(s, cutset)] for a one-byte cutset *)
Fixpoint TrimLeft (s : string) (c : ascii) : string :=
  match s with
  | String a s' => if Ascii.eqb a c then TrimLeft s' c else s
  | EmptyString => EmptyString
  end.

(** ASCII case mapping: what [strings.ToUpper] and [strings.ToLower]
    compute on a string made of ASCII bytes only. *)
Definition is_ascii_byte (c : ascii) : bool := (nat_of_ascii c <? 128)%nat.

Definition upper_byte (c : ascii) : ascii :=
  let n := nat_of_ascii c in
  if ((97 <=? n) && (n <=? 122))%nat then ascii_of_nat (n - 32) else c.

Definition lower_byte (c : ascii) : ascii :=
  let n := nat_of_ascii c in
  if ((65 <=? n) && (n <=? 90))%nat then ascii_of_nat (n + 32) else c.

Fixpoint map_bytes (f : ascii → ascii) (s : string) : string :=
  match s with
  | EmptyString => EmptyString
  | String c s' => String (f c) (map_bytes f s')
  end.

Fixpoint all_bytes (p : ascii → bool) (s : string) : bool :=
  match s with
  | EmptyString => true
  | String c s' => p c && all_bytes p s'
  end.

Definition is_ascii (s : string) : bool := all_bytes is_ascii_byte s.
Definition ascii_upper : string → string := map_bytes upper_byte.
Definition ascii_lower : string → string := map_bytes lower_byte.

(** The same letter in the other case; any other byte unchanged. *)
Definition swap_case_byte (c : ascii) : ascii :=
  let n := nat_of_ascii c in
  if ((65 <=? n) && (n <=? 90))%nat then ascii_of_nat (n + 32)
  else if ((97 <=? n) && (n <=? 122))%nat then ascii_of_nat (n - 32)
  else c.

(** Two strings that differ only in the case of some ASCII letters. *)
Fixpoint same_modulo_case (s t : string) : bool :=
  match s, t with
  | EmptyString, EmptyString => true
  | String a s', String b t' =>
      (Ascii.eqb a b || Ascii.eqb (swap_case_byte a) b)
      && same_modulo_case s' t'
  | _, _ => false
  end.

End strings.

(** ** The DNS library: constants and message types the program uses *)

Module dns.

(** Record types are [uint16]; only equality is ever used on them. *)
Definition TypeA : Z := 1.
Definition TypeNS : Z := 2.
Definition TypeCNAME : Z := 5.
Definition TypePTR : Z := 12.
Definition TypeMX : Z := 15.
Definition TypeTXT : Z := 16.
Definition TypeAAAA : Z := 28.
Definition TypeANY : Z := 255.
Definition TypeCAA : Z := 257.

Definition RcodeSuccess : Z := 0.
Definition RcodeServerFailure : Z := 2.

Record Question := mkQuestion { Name : string; Qtype : Z; Qclass : Z }.

(** The fields of [dns.Msg] the program reads or writes, and the header
    fields the library's reply helpers set. [RR] is the library's opaque
    resource record. *)
Record Msg (RR : Type) := mkMsg {
  Id : Z;
  Response : bool;
  Opcode : Z;
  Rcode : Z;
  Question_ : list Question;
  Answer : list RR;
  Ns : list RR;
  Extra : list RR
}.
Arguments mkMsg {RR}.
Arguments Id {RR}.
Arguments Response {RR}.
Arguments Opcode {RR}.
Arguments Rcode {RR}.
Arguments Question_ {RR}.
Arguments Answer {RR}.
Arguments Ns {RR}.
Arguments Extra {RR}.

(** [new(dns.Msg)]: the zero value. *)
Definition new_Msg {RR : Type} : Msg RR :=
  mkMsg 0 false 0 0 [] [] [] [].

(** [r.Rcode = rcode] *)
Definition set_Rcode {RR : Type} (m : Msg RR) (rcode : Z) : Msg RR :=
  mkMsg (Id m) (Response m) (Opcode m) rcode
        (Question_ m) (Answer m) (Ns m) (Extra m).

(** [m.Answer = append(m.Answer, rrs...)] and its siblings *)
Definition append_Answer {RR : Type} (m : Msg RR) (rrs : list RR) : Msg RR :=
  mkMsg (Id m) (Response m) (Opcode m) (Rcode m)
        (Question_ m) (Answer m ++ rrs) (Ns m) (Extra m).

Definition append_Ns {RR : Type} (m : Msg RR) (rrs : list RR) : Msg RR :=
  mkMsg (Id m) (Response m) (Opcode m) (Rcode m)
        (Question_ m) (Answer m) (Ns m ++ rrs) (Extra m).

Definition append_Extra {RR : Type} (m : Msg RR) (rrs : list RR) : Msg RR :=
  mkMsg (Id m) (Response m) (Opcode m) (Rcode m)
        (Question_ m) (Answer m) (Ns m) (Extra m ++ rrs).

End dns.

(** ** Package-level constants *)

Definition keyHostname : string := "hostname".
Definition keyPriority : string := "priority".
Definition keyTTL : string := "ttl".
Definition keyValue : string := "value".

Definition supportedTypes : gmap string Z :=
  list_to_map
    [ ("A", dns.TypeA); ("AAAA", dns.TypeAAAA); ("CAA", dns.TypeCAA);
      ("CNAME", dns.TypeCNAME); ("MX", dns.TypeMX); ("NS", dns.TypeNS);
      ("PTR", dns.TypePTR); ("TXT", dns.TypeTXT) ].

(** The names of the supported enumeration. *)
Definition supported_names : list string :=
  ["A"; "AAAA"; "CAA"; "CNAME"; "MX"; "NS"; "PTR"; "TXT"].

(** Log tags of [logRequest] (the coloured letters). *)
Inductive tag := cFailure | cSuccess | cOverride | cProxied | cTerminal.

(** ** types.go: the record set

    [type records struct { fqdn string; data map[uint16][]dns.RR }].
    A nil [data] reads like the empty map, and [UnmarshalJSON] replaces
    it by an empty map before writing: both are [∅] here. *)
Record records (RR : Type) := mkRecords {
  fqdn : string;
  data : gmap Z (list RR)
}.
Arguments mkRecords {RR}.
Arguments fqdn {RR}.
Arguments data {RR}.

(** ** A concrete set of collaborators

    Stand-ins for the libraries, used to run the program on examples: a
    resource record is the line it was built from, and the constructor
    rejects the lines that end with an exclamation mark and finds no
    record in a comment line. *)

Module sample.

Definition quote_byte : ascii := ascii_of_nat 34.

Definition NewRR (s : string) : option string * option string :=
  if strings.HasSuffix s "!" then (None, Some "bad rdata")
  else if String.prefix ";" s then (None, None)
  else (Some s, None).

Definition Fqdn (s : string) : string :=
  if strings.HasSuffix s "." then s else s +:+ ".".

Definition Quote (v : string) : string :=
  String quote_byte (v +:+ String quote_byte "").

Definition SetReply (m r : dns.Msg string) : dns.Msg string :=
  dns.mkMsg (dns.Id r) true (dns.Opcode r) dns.RcodeSuccess
            (take 1 (dns.Question_ r)) (dns.Answer m) (dns.Ns m) (dns.Extra m).

Definition SetRcode (m r : dns.Msg string) (rcode : Z) : dns.Msg string :=
  dns.set_Rcode (SetReply m r) rcode.

(** A query for [www.a.test.] and the answer of the one upstream server
    that works. *)
Definition query (qtype : Z) : dns.Msg string :=
  dns.mkMsg 7 false 0 0 [dns.mkQuestion "a.test." qtype 1] [] [] [].

Definition upstream_reply : dns.Msg string :=
  dns.mkMsg 7 true 0 0 [dns.mkQuestion "a.test." 1 1]
            ["a.test. 60 IN A 198.51.100.7"] [] [].

(** The network counts the exchanges; only [192.0.2.53:53] answers. *)
Definition Exchange (w : nat) (r : dns.Msg string) (a : string)
  : option (dns.Msg string) * option string * nat :=
  if String.eqb a "192.0.2.53:53" then (Some upstream_reply, None, S w)
  else (None, Some "i/o timeout", S w).

Definition Question_String (q : dns.Question) : string :=
  ";" +:+ dns.Name q.

Definition GoSyntax (m : dns.Msg string) : string := "&dns.Msg{}".

(** Field maps and documents. *)
Definition value_only (v : string) : gmap string string :=
  {[ "value" := v ]}.

Definition mx_record : gmap string string :=
  {[ "hostname" := "@"; "ttl" := "300"; "priority" := "10";
     "value" := "mail.a.test." ]}.

Definition www_record : gmap string string :=
  {[ "hostname" := "www"; "priority" := "10"; "value" := "192.0.2.1" ]}.

(** <<{"good.test": {"A": [{"value": "192.0.2.1"}]},
      "bad.test":  {"A": [{"value": "!"}]}}>>, the first entry visited
    first. *)
Definition two_domains
  : list (string *
          (string + list (string * list (option (gmap string string))))) :=
  [ ("good.test", inr [("A", [Some (value_only "192.0.2.1")])]);
    ("bad.test", inr [("A", [Some (value_only "!")])]) ].

(** <<{"A.Test": {"ns": [{"value": "ns1.test."}], "SRV": [{"value": "x"}],
      "a": [null, {"value": "192.0.2.1"}]}}>> *)
Definition mixed_case
  : list (string *
          (string + list (string * list (option (gmap string string))))) :=
  [ ("A.Test",
     inr [ ("ns", [Some (value_only "ns1.test.")]);
           ("SRV", [Some (value_only "x")]);
           ("a", [None; Some (value_only "192.0.2.1")]) ]) ].

(** The record set of [a.test.] and two orders of visiting its type map. *)
Definition a_test : records string :=
  mkRecords "a.test."
    {[ dns.TypeA :=
         ["a.test. 3600 IN A 192.0.2.1"; "a.test. 3600 IN A 192.0.2.2"];
       dns.TypeNS := ["a.test. 3600 IN NS ns1.test."];
       dns.TypeMX := ["a.test. 300 IN MX 10 mail.a.test."] ]}.

Definition visit (i : nat) : list (Z * list string) :=
  if Nat.even i then map_to_list (data a_test)
  else reverse (map_to_list (data a_test)).

(** A query with two questions, ANY and AAAA. *)
Definition any_query : dns.Msg string :=
  dns.mkMsg 7 false 0 0
    [dns.mkQuestion "a.test." dns.TypeANY 1;
     dns.mkQuestion "a.test." dns.TypeAAAA 1] [] [] [].

(** Upstream servers: the second one answers; and two that do not. *)
Definition Servers : list string :=
  ["198.51.100.1"; "192.0.2.53"; "203.0.113.9"].

Definition dead_Servers : list string := ["198.51.100.1"; "203.0.113.9"].

(** A type map with two spellings of NS, a null field map and an
    unsupported type; and the same entries in another order. *)
Definition a_test_types : list (string * list (option (gmap string string))) :=
  [ ("ns", [Some (value_only "ns1.test."); Some (value_only "ns2.test.")]);
    ("SRV", [Some (value_only "x")]);
    ("a", [None; Some (value_only "192.0.2.1")]);
    ("NS", [Some (value_only "ns3.test.")]) ].

Definition b_test_types : list (string * list (option (gmap string string))) :=
  [ ("txt", [Some (value_only "hello world")]);
    ("a", [Some (value_only "192.0.2.9")]) ].

(** Two spellings of one domain, the second visited last. *)
Definition same_domain_twice
  : list (string *
          (string + list (string * list (option (gmap string string))))) :=
  [ ("A.Test", inr [("a", [Some (value_only "192.0.2.1")])]);
    ("a.test", inr [("a", [Some (value_only "192.0.2.2")])]) ].

(** Two domains. *)
Definition a_and_b
  : list (string *
          (string + list (string * list (option (gmap string string))))) :=
  [ ("a.test", inr a_test_types); ("B.test", inr b_test_types) ].

(** An upstream server whose answer is "no such name". *)
Definition nxdomain_reply : dns.Msg string :=
  dns.mkMsg 7 true 0 3 [dns.mkQuestion "a.test." 1 1] [] [] [].

Definition Exchange_nxdomain (w : nat) (r : dns.Msg string) (a : string)
  : option (dns.Msg string) * option string * nat :=
  (Some nxdomain_reply, None, S w).

(** The files [main] reads. *)
Definition ClientConfigFromFile (path : string)
  : string + (list string * string) :=
  if String.eqb path "/etc/resolv.conf" then inr (Servers, "53")
  else inl "no such file".

Definition ReadFile (path : string)
  : string +
    (string +
     list (string *
           (string + list (string * list (option (gmap string string)))))) :=
  if String.eqb path "zone.json" then inr (inr a_and_b)
  else inl "no such file".

(** The mixed-case domain and a second one; and the same document with
    every key and type name in another letter case, the domains and the
    type names visited in the reverse order. *)
Definition mixed_case_and_b
  : list (string *
          (string + list (string * list (option (gmap string string))))) :=
  [ ("A.Test",
     inr [ ("ns", [Some (value_only "ns1.test.")]);
           ("SRV", [Some (value_only "x")]);
           ("a", [None; Some (value_only "192.0.2.1")]) ]);
    ("B.test", inr b_test_types) ].

Definition mixed_case_and_b_respelled
  : list (string *
          (string + list (string * list (option (gmap string string))))) :=
  [ ("b.TEST",
     inr [ ("A", [Some (value_only "192.0.2.9")]);
           ("TXT", [Some (value_only "hello world")]) ]);
    ("a.tEST",
     inr [ ("A", [None; Some (value_only "192.0.2.1")]);
           ("srv", [Some (value_only "x")]);
           ("NS", [Some (value_only "ns1.test.")]) ]) ].

(** The two spellings of one domain with the first key in upper case,
    visited last. *)
Definition same_domain_twice_respelled
  : list (string *
          (string + list (string * list (option (gmap string string))))) :=
  [ ("a.test", inr [("a", [Some (value_only "192.0.2.2")])]);
    ("A.TEST", inr [("a", [Some (value_only "192.0.2.1")])]) ].

(** Two spellings of NS in one domain; and the first spelled [Ns],
    visited last. *)
Definition ns_twice
  : list (string *
          (string + list (string * list (option (gmap string string))))) :=
  [ ("a.test",
     inr [ ("ns", [Some (value_only "ns1.test.")]);
           ("NS", [Some (value_only "ns3.test.")]) ]) ].

Definition ns_twice_respelled
  : list (string *
          (string + list (string * list (option (gmap string string))))) :=
  [ ("a.test",
     inr [ ("NS", [Some (value_only "ns3.test.")]);
           ("Ns", [Some (value_only "ns1.test.")]) ]) ].

(** The document with a rejected line, the failing domain in upper case
    and visited first. *)
Definition two_domains_respelled
  : list (string *
          (string + list (string * list (option (gmap string string))))) :=
  [ ("BAD.TEST", inr [("A", [Some (value_only "!")])]);
    ("good.test", inr [("A", [Some (value_only "192.0.2.1")])]) ].

End sample.

(** ** The program *)

Section mockdns.

(** *** Collaborators *)

(** The DNS library's resource record and the error of its constructor
    [dns.NewRR], which returns a record, an error, or neither (a line
    that holds no record). *)
Context {RR ParseError : Type}.
Variable NewRR : string → option RR * option ParseError.

(** [dns.Fqdn] *)
Variable Fqdn : string → string.

(** [fmt.Sprintf("%q", v)] *)
Variable Quote : string → string.

(** [strings.ToUpper], [strings.ToLower] (Unicode aware) *)
Variable ToUpper : string → string.
Variable ToLower : string → string.

(** The error of [json.Unmarshal] on malformed or ill-typed input. *)
Context {JsonError : Type}.

(** The [-ttl] flag. *)
Variable defaultTTL : string.

(** *** types.go *)

Inductive error :=
| errNilMapUnmarshal
| errJson (e : JsonError)
| errRR (e : ParseError).

(** One element of a record list of the document: a JSON object decoded
    as [map[string]string], or [None] for a nil map (JSON [null]). *)
Abbreviation fieldMap := (gmap string string).

(** The [parts] of [rrFromMap] for a non-nil field map, grown by [append]
    as in the source. *)
Definition rrFromMap_parts (typ fqdn : string) (m : fieldMap) : list string :=
  let parts : list string := [] in
  let parts :=
    match m !! keyHostname with
    | Some v =>
        let v :=
          if String.eqb v "@" then fqdn
          else if negb (strings.HasSuffix v fqdn) then v +:+ "." +:+ fqdn
          else v in
        parts ++ [v]
    | None => parts ++ [fqdn]
    end in
  let parts :=
    match m !! keyTTL with
    | Some v => parts ++ [v]
    | None => parts ++ [defaultTTL]
    end in
  let parts := parts ++ ["IN"; typ] in
  let parts :=
    if String.eqb typ "MX" then
      match m !! keyPriority with
      | Some v => parts ++ [v]
      | None => parts
      end
    else parts in
  let parts :=
    match m !! keyValue with
    | Some v =>
        let v := if String.eqb typ "TXT" then Quote v else v in
        parts ++ [v]
    | None => parts
    end in
  parts.

(** The line [log.Printf("Attempting to parse: %q", s)] writes. *)
Definition attempt_line (s : string) : string :=
  "Attempting to parse: " +:+ Quote s.

(** [func (recs records) rrFromMap(typ, fqdn string, m map[string]string)
    (dns.RR, error)]. The third component is what the call writes to the
    log. *)
Definition rrFromMap (typ fqdn : string) (m : option fieldMap)
  : option RR * option ParseError * list string :=
  match m with
  | None => (None, None, [])
  | Some m =>
      let s := strings.Join (rrFromMap_parts typ fqdn m) " " in
      let '(rr, err) := NewRR s in
      (rr, err,
       match err with
       | Some _ => [attempt_line s]
       | None => []
       end)
  end.

(** The decoded [map[string][]map[string]string] of a domain entry, as
    the list of its entries in the order the [range] visits them. *)
Abbreviation typeMap := (list (string * list (option fieldMap))).

(** The inner loop of [records.UnmarshalJSON]: [for _, r := range v].
    The loop body reassigns [typ], so the upper-cased name is what the
    next iteration starts from. Returns the record set as the loop left
    it, the error returned (if any) and the log lines written. *)
Fixpoint range_v (typ : string) (v : list (option fieldMap)) (recs : records RR)
  : records RR * option error * list string :=
  match v with
  | [] => (recs, None, [])
  | r :: v' =>
      let typ := ToUpper typ in
      match supportedTypes !! typ with
      | None => range_v typ v' recs (* unsupported type *)
      | Some iType =>
          match rrFromMap typ (fqdn recs) r with
          | (_, Some rErr, out) => (recs, Some (errRR rErr), out)
          | (Some rr, None, out) =>
              let recs' :=
                mkRecords (fqdn recs)
                  (<[iType := default [] (data recs !! iType) ++ [rr]]>
                     (data recs)) in
              let '(recs'', e, out') := range_v typ v' recs' in
              (recs'', e, out ++ out')
          | (None, None, out) =>
              let '(recs'', e, out') := range_v typ v' recs in
              (recs'', e, out ++ out')
          end
      end
  end.

(** The outer loop: [for typ, v := range m]. *)
Fixpoint range_m (m : typeMap) (recs : records RR)
  : records RR * option error * list string :=
  match m with
  | [] => (recs, None, [])
  | (typ, v) :: m' =>
      match range_v typ v recs with
      | (recs', Some e, out) => (recs', Some e, out)
      | (recs', None, out) =>
          let '(recs'', e, out') := range_m m' recs' in
          (recs'', e, out ++ out')
      end
  end.

(** [func (recs *records) UnmarshalJSON(b []byte) error]. The argument
    [b] is given by what [json.Unmarshal(b, &m)] makes of it. *)
Definition records_UnmarshalJSON (recs : records RR) (b : JsonError + typeMap)
  : records RR * option error * list string :=
  match b with
  | inl err => (recs, Some (errJson err), [])
  | inr m => range_m m recs
  end.

(** The decoded [map[string]json.RawMessage] of the document, in the
    order the [range] visits it; each raw message is given by what
    decoding it yields. *)
Abbreviation domainMap := (list (string * (JsonError + typeMap))).

(** [for domain, j := range m] of [data.UnmarshalJSON]. The map [d] is
    updated in place: what it holds when the loop returns is the first
    component. *)
Fixpoint range_domains (m : domainMap) (d : gmap string (records RR))
  : gmap string (records RR) * option error * list string :=
  match m with
  | [] => (d, None, [])
  | (domain, j) :: m' =>
      let domain := Fqdn (ToLower domain) in
      let rt := mkRecords domain ∅ in
      match records_UnmarshalJSON rt j with
      | (_, Some uErr, out) => (d, Some uErr, out)
      | (rt', None, out) =>
          let '(d', e, out') := range_domains m' (<[domain := rt']> d) in
          (d', e, out ++ out')
      end
  end.

(** [func (d data) UnmarshalJSON(b []byte) error], with [d = None] for
    a nil map. *)
Definition data_UnmarshalJSON
    (d : option (gmap string (records RR))) (b : JsonError + domainMap)
  : option (gmap string (records RR)) * option error * list string :=
  match d with
  | None => (None, Some errNilMapUnmarshal, [])
  | Some d0 =>
      match b with
      | inl err => (Some d0, Some (errJson err), [])
      | inr m =>
          let '(d', e, out) := range_domains m d0 in (Some d', e, out)
      end
  end.

(** *** The entry points (both variants)

    The globals set from the flags and the resolver configuration: *)
Variable proxy : bool.
Variable verbose : bool.
(** [clientConfig.Servers] and [clientConfig.Port] *)
Variable Servers : list string.
Variable Port : string.

(** [m.SetReply(r)] and [m.SetRcode(r, rcode)] of the DNS library, as
    functions of the receiver [m] and the request [r] (which they only
    read) to the receiver afterwards. *)
Variable SetReply : dns.Msg RR → dns.Msg RR → dns.Msg RR.
Variable SetRcode : dns.Msg RR → dns.Msg RR → Z → dns.Msg RR.

(** [client.Exchange(r, address)]: one synchronous exchange with an
    upstream server. What it returns depends on the network, whose state
    [World] it advances; it does not write to [r]. *)
Context {World ExchangeError : Type}.
Variable Exchange :
  World → dns.Msg RR → string →
  option (dns.Msg RR) * option ExchangeError * World.

(** [q.String()] and the [%#v] rendering of a message. *)
Variable Question_String : dns.Question → string.
Variable GoSyntax : dns.Msg RR → string.

(** What a [func(dns.ResponseWriter, *dns.Msg)] does: the message it
    passes to [w.WriteMsg] ([None] for a nil pointer), the request [r] as
    the call leaves it, the state of the network, and the addresses it
    exchanged with, in order. *)
Record effects := mkEffects {
  written : option (dns.Msg RR);
  request : dns.Msg RR;
  world : World;
  exchanged : list string
}.

Abbreviation HandlerFunc := (dns.Msg RR → World → effects).

(** [for _, rrs := range recs.data { m.Answer = append(m.Answer, rrs...) }]
    visiting the entries in the order [ord]. *)
Fixpoint range_data (ord : list (Z * list RR)) (m : dns.Msg RR) : dns.Msg RR :=
  match ord with
  | [] => m
  | (_, rrs) :: ord' => range_data ord' (dns.append_Answer m rrs)
  end.

(** [for _, question := range r.Question] of [handler]. [visit i] is the
    order in which the [range recs.data] run for question number [i]
    visits the type map. *)
Fixpoint range_Question (recs : records RR) (visit : nat → list (Z * list RR))
    (i : nat) (qs : list dns.Question) (m : dns.Msg RR) : dns.Msg RR :=
  match qs with
  | [] => m
  | question :: qs' =>
      let m :=
        if dns.Qtype question =? dns.TypeANY then range_data (visit i) m
        else
          match data recs !! dns.Qtype question with
          | Some rrs => dns.append_Answer m rrs
          | None => m
          end in
      range_Question recs visit (S i) qs' m
  end.

(** The message [handler(recs)] builds for the request [r]. *)
Definition handler_reply (recs : records RR) (visit : nat → list (Z * list RR))
    (r : dns.Msg RR) : dns.Msg RR :=
  let m := dns.new_Msg in
  let m := SetReply m r in
  (* answer *)
  let m := range_Question recs visit 0 (dns.Question_ r) m in
  (* authority *)
  let m :=
    match data recs !! dns.TypeNS with
    | Some rrs => dns.append_Ns m rrs
    | None => m
    end in
  (* additional *)
  let m :=
    match data recs !! dns.TypeA with
    | Some rrs => dns.append_Extra m rrs
    | None => m
    end in
  let m :=
    match data recs !! dns.TypeAAAA with
    | Some rrs => dns.append_Extra m rrs
    | None => m
    end in
  m.

(** [func handler(recs records) func(dns.ResponseWriter, *dns.Msg)] of the
    proxying entry point. *)
Definition handler (recs : records RR) (visit : nat → list (Z * list RR))
  : HandlerFunc :=
  fun r w => mkEffects (Some (handler_reply recs visit r)) r w [].

(** [handler] of the entry point without proxying: the same, after one
    log line. *)
Definition handler_noproxy (recs : records RR) (visit : nat → list (Z * list RR))
    (r : dns.Msg RR) (w : World) : effects * list string :=
  (mkEffects (Some (handler_reply recs visit r)) r w [],
   ["Incoming request: " +:+ GoSyntax r]).

Inductive proxy_error :=
| errNotProxied
| errExchange (e : ExchangeError).

(** [for _, ns := range clientConfig.Servers] of [proxyHandler]: returns
    [m], [err], the network and the addresses exchanged with. *)
Fixpoint range_Servers (servers : list string) (r : dns.Msg RR) (w : World)
    (m : option (dns.Msg RR)) (err : option proxy_error)
  : option (dns.Msg RR) * option proxy_error * World * list string :=
  match servers with
  | [] => (m, err, w, [])
  | ns :: servers' =>
      let a := ns +:+ ":" +:+ Port in
      let '(m, err, w) := Exchange w r a in
      match err with
      | None => (m, None, w, [a]) (* break *)
      | Some e =>
          let '(m, err, w, calls) :=
            range_Servers servers' r w m (Some (errExchange e)) in
          (m, err, w, a :: calls)
      end
  end.

(** [func proxyHandler(w dns.ResponseWriter, r *dns.Msg)] *)
Definition proxyHandler : HandlerFunc :=
  fun r w =>
    let m : option (dns.Msg RR) := None in
    let err := Some errNotProxied in
    let '(m, err, w, calls) :=
      if proxy then range_Servers Servers r w m err else (m, err, w, []) in
    match err with
    | Some _ =>
        let m := match m with None => dns.new_Msg | Some m => m end in
        let m := SetRcode m r dns.RcodeServerFailure in
        let r := dns.set_Rcode r dns.RcodeServerFailure in
        mkEffects (Some m) r w calls
    | None => mkEffects m r w calls
    end.

(** The address [proxyHandler] dials for the server [ns]:
    [fmt.Sprintf("%s:%s", ns, clientConfig.Port)]. *)
Definition address (ns : string) : string := ns +:+ ":" +:+ Port.

(** The network after [r] was exchanged with each of [addresses] in turn. *)
Fixpoint world_after (addresses : list string) (r : dns.Msg RR) (w : World)
  : World :=
  match addresses with
  | [] => w
  | a :: rest => world_after rest r (Exchange w r a).2
  end.

(** The [k]-th exchange of a run that reaches it: its address, the network
    it meets, and what it returns. *)
Definition exchange_nr (k : nat) (ns : string) (r : dns.Msg RR) (w : World)
  : option (dns.Msg RR) * option ExchangeError * World :=
  Exchange (world_after (address <$> take k Servers) r w) r (address ns).

(** One line of [logRequest]: [log.Printf("[%s,%s]: %s", t, res, ...)]. *)
Record log_line := mkLine { line_t : tag; line_res : tag; line_q : string }.

(** [func logRequest(local bool, f func(...)) func(...)] *)
Definition logRequest (local : bool) (f : HandlerFunc)
    (r : dns.Msg RR) (w : World) : effects * list log_line :=
  let e := f r w in
  let r := request e in
  (e,
   if verbose then
     let t :=
       if local then cOverride
       else if proxy then cProxied
       else cTerminal in
     let res := if dns.Rcode r =? 0 then cSuccess else cFailure in
     map (fun q => mkLine t res (strings.TrimLeft (Question_String q) ";"))
         (dns.Question_ r)
   else []).

(** The handlers [serve] registers: [logRequest(true, handler(recs))] for
    each domain of the store and [logRequest(false, proxyHandler)] for
    everything else. *)
Definition serve_domain (recs : records RR) (visit : nat → list (Z * list RR)) :=
  logRequest true (handler recs visit).

Definition serve_root := logRequest false proxyHandler.

(** How [main] loads the document: [d := make(data)], then
    [json.Unmarshal(b, &d)], and [log.Fatal(err)] on an error. *)
Inductive startup :=
| Fatal (err : error)
| Loaded (d : gmap string (records RR)).

Definition main_load (b : JsonError + domainMap) : startup :=
  match data_UnmarshalJSON (Some ∅) b with
  | (_, Some err, _) => Fatal err
  | (Some d, None, _) => Loaded d
  | (None, None, _) => Loaded ∅
  end.

(** *** Notions the properties are stated with *)

(** What one question contributes to the answer section: for ANY, every
    stored record of every type and nothing else, each type's records in
    one block in stored order; otherwise the sequence stored under the
    type asked for, or nothing when there is none. *)
Definition answers (recs : records RR) (question : dns.Question)
    (block : list RR) : Prop :=
  if decide (dns.Qtype question = dns.TypeANY) then
    block ≡ₚ concat (map_to_list (data recs)).*2 ∧
    ∀ t rrs, data recs !! t = Some rrs → ∃ pre post, block = pre ++ rrs ++ post
  else
    match data recs !! dns.Qtype question with
    | Some rrs => block = rrs
    | None => block = []
    end.

(** A record set whose type map has no empty sequence, and only records
    the RR constructor returned. *)
Definition well_formed (recs : records RR) : Prop :=
  ∀ t l, data recs !! t = Some l →
         l ≠ [] ∧ ∀ rr, rr ∈ l → ∃ s, (NewRR s).1 = Some rr.

(** A field map of the type map [m] that the loops reach with a supported
    type name and whose record line the RR constructor rejects. *)
Definition rejected_in (fqdn : string) (m : typeMap) : Prop :=
  ∃ typ v fm,
    (typ, v) ∈ m ∧ Some fm ∈ v ∧
    is_Some (supportedTypes !! ToUpper typ) ∧
    is_Some (NewRR (strings.Join (rrFromMap_parts (ToUpper typ) fqdn fm) " ")).2.

(** *** Notions for the further properties *)

(** The records the inner loop of [records.UnmarshalJSON] keeps from the
    field maps [v], in source order: the record [rrFromMap] returns for
    each one that yields a record. *)
Definition constructed (typ fqdn : string) (v : list (option fieldMap))
  : list RR :=
  omap (λ r, (rrFromMap typ fqdn r).1.1) v.

(** A map entry after [append]ing the batch [built] to it, one record at
    a time: an empty batch leaves the entry as it is, missing or not. *)
Definition extended (o : option (list RR)) (built : list RR)
  : option (list RR) :=
  match built with
  | [] => o
  | _ => Some (default [] o ++ built)
  end.

(** What the entries of a type map add under the record type [t]: the
    records kept from every entry whose upper-cased name stands for [t],
    entry after entry in visiting order. *)
Definition contribution (fqdn : string) (t : Z) (m : typeMap) : list RR :=
  concat
    (map (λ e : string * list (option fieldMap),
            if decide (supportedTypes !! ToUpper e.1 = Some t)
            then constructed (ToUpper e.1) fqdn e.2
            else [])
         m).

(** The key a domain of the document is stored under. *)
Definition store_key (domain : string) : string := Fqdn (ToLower domain).

(** Two messages that differ at most in the order of the answer section. *)
Definition same_but_answer_order (m1 m2 : dns.Msg RR) : Prop :=
  dns.Id m1 = dns.Id m2 ∧ dns.Response m1 = dns.Response m2 ∧
  dns.Opcode m1 = dns.Opcode m2 ∧ dns.Rcode m1 = dns.Rcode m2 ∧
  dns.Question_ m1 = dns.Question_ m2 ∧
  dns.Answer m1 ≡ₚ dns.Answer m2 ∧
  dns.Ns m1 = dns.Ns m2 ∧ dns.Extra m1 = dns.Extra m2.

(** *** [main] up to the start of the listeners *)

(** The errors of [dns.ClientConfigFromFile] and [ioutil.ReadFile]. *)
Context {ConfigError ReadError : Type}.

(** The [-data] and [-resolv] flags. *)
Variable dataFile : string.
Variable resolvConfFile : string.

(** [dns.ClientConfigFromFile]: the servers and the port of a resolver
    configuration file, or an error. *)
Variable ClientConfigFromFile : string → ConfigError + (list string * string).

(** [ioutil.ReadFile]; the content read is given by what [json.Unmarshal]
    makes of it. *)
Variable ReadFile : string → ReadError + (JsonError + domainMap).

(** The calls of [log.Fatal] in [main]. *)
Inductive fatal :=
| fatalDataFileRequired
| fatalReading (err : ConfigError)
| fatalNoNameServers
| fatalReadFile (err : ReadError)
| fatalUnmarshal (err : error).

(** [main] either exits or goes on to start the listeners, with the
    [clientConfig] ([None] for nil) and the store it has then. *)
Inductive main_state :=
| Exited (f : fatal)
| Listening (clientConfig : option (list string * string))
            (d : gmap string (records RR)).

(** [func main()] of the proxying entry point, up to [serve]. *)
Definition main_startup : main_state :=
  if String.eqb dataFile "" then Exited fatalDataFileRequired
  else
    let config :=
      if proxy then
        match ClientConfigFromFile resolvConfFile with
        | inl err => inl (fatalReading err)
        | inr clientConfig =>
            if (length clientConfig.1 =? 0)%nat then inl fatalNoNameServers
            else inr (Some clientConfig)
        end
      else inr None in
    match config with
    | inl f => Exited f
    | inr clientConfig =>
        match ReadFile dataFile with
        | inl err => Exited (fatalReadFile err)
        | inr b =>
            match main_load b with
            | Fatal err => Exited (fatalUnmarshal err)
            | Loaded d => Listening clientConfig d
            end
        end
    end.

(** [func main()] of the entry point without proxying, up to [serve]. *)
Definition main_noproxy_startup : main_state :=
  if String.eqb dataFile "" then Exited fatalDataFileRequired
  else
    match ReadFile dataFile with
    | inl err => Exited (fatalReadFile err)
    | inr b =>
        match main_load b with
        | Fatal err => Exited (fatalUnmarshal err)
        | Loaded d => Listening None d
        end
    end.

(** What [main] has done with the data file when it starts the listeners
    with the store [d]. *)
Definition loaded_from_file (d : gmap string (records RR)) : Prop :=
  dataFile ≠ "" ∧
  ∃ dm,
    ReadFile dataFile = inr (inr dm) ∧
    data_UnmarshalJSON (Some ∅) (inr dm) = (Some d, None, []) ∧
    ∀ k recs, d !! k = Some recs →
              strings.HasSuffix k "." = true ∧ fqdn recs = k ∧
              well_formed recs.

(** *** Notions for the letter case of the keys *)

(** Two spellings the loops do not tell apart: of a domain key, which
    [data.UnmarshalJSON] lower-cases, and of a type name, which
    [records.UnmarshalJSON] upper-cases. *)
Definition same_key (k k' : string) : Prop := ToLower k = ToLower k'.

Definition same_type_name (t t' : string) : Prop := ToUpper t = ToUpper t'.

(** A type map with its names spelled another way and its entries visited
    in another order: [m0] is [m] respelled entry by entry, and [m'] is
    [m0] in the order the second [range] takes. *)
Definition respelled_types (m m' : typeMap) : Prop :=
  ∃ m0,
    Forall2 (λ e e0 : string * list (option fieldMap),
               same_type_name e.1 e0.1 ∧ e.2 = e0.2) m m0 ∧
    m0 ≡ₚ m'.

Definition respelled_entry (j j' : JsonError + typeMap) : Prop :=
  match j, j' with
  | inr m, inr m' => respelled_types m m'
  | inl e, inl e' => e = e'
  | _, _ => False
  end.

(** The same for a document: domain keys respelled, the type map of each
    domain respelled and visited in an order of its own, and the domains
    visited in another order. *)
Definition respelled (dm dm' : domainMap) : Prop :=
  ∃ dm0,
    Forall2 (λ e e0 : string * (JsonError + typeMap),
               same_key e.1 e0.1 ∧ respelled_entry e.2 e0.2) dm dm0 ∧
    dm0 ≡ₚ dm'.

(** A document in which no two domains are stored under one key and no
    two type names of a domain stand for one upper-cased name. *)
Definition unambiguous (dm : domainMap) : Prop :=
  NoDup (store_key <$> dm.*1) ∧
  ∀ dom m, (dom, inr m) ∈ dm → NoDup (ToUpper <$> m.*1).

(** ** Facts about the string helpers *)

Import strings.

Lemma drop_app_length (p s : string) : drop (String.length p) (p +:+ s) = s.
Proof. induction p as [|c p IH]; simpl; auto. Qed.

Lemma length_app (p s : string) :
  String.length (p +:+ s) = (String.length p + String.length s)%nat.
Proof. induction p as [|c p IH]; simpl; auto. Qed.

Lemma drop_split (n : nat) (s : string) :
  (n ≤ String.length s)%nat →
  ∃ p, s = p +:+ drop n s ∧ String.length p = n.
Proof.
  revert s. induction n as [|n IH]; intros s Hn.
  - exists "". split; reflexivity.
  - destruct s as [|c s]; simpl in Hn; [lia|].
    destruct (IH s) as (p & Hp & Hl); [lia|].
    exists (String c p). split; [|simpl; congruence].
    change (String c s = String c (p +:+ drop n s)). congruence.
Qed.

(** [HasSuffix] decides "ends with". *)
Lemma HasSuffix_spec (s suffix : string) :
  HasSuffix s suffix = true ↔ ∃ p, s = p +:+ suffix.
Proof.
  unfold HasSuffix. rewrite andb_true_iff, Nat.leb_le, String.eqb_eq.
  split.
  - intros [Hle Heq].
    destruct (drop_split (String.length s - String.length suffix) s)
      as (p & Hp & _); [lia|].
    exists p. rewrite Heq in Hp. exact Hp.
  - intros [p ->]. rewrite length_app. split; [lia|].
    replace (String.length p + String.length suffix - String.length suffix)%nat
      with (String.length p) by lia.
    apply drop_app_length.
Qed.

Lemma HasSuffix_false (s suffix : string) :
  HasSuffix s suffix = false ↔ ∀ p, s ≠ p +:+ suffix.
Proof.
  rewrite <- not_true_iff_false, HasSuffix_spec. split.
  - intros Hn p Hp. apply Hn. by exists p.
  - intros Hn [p Hp]. by apply (Hn p).
Qed.


(** ** The record line of [rrFromMap] *)

Lemma rrFromMap_parts_cons (typ fqdn : string) (m : gmap string string) :
  ∃ rest,
    rrFromMap_parts typ fqdn m =
    match m !! keyHostname with
    | Some v =>
        if String.eqb v "@" then fqdn
        else if negb (HasSuffix v fqdn) then v +:+ "." +:+ fqdn
        else v
    | None => fqdn
    end :: rest.
Proof.
  unfold rrFromMap_parts.
  destruct (m !! keyHostname), (m !! keyTTL), (String.eqb typ "MX"),
    (m !! keyPriority), (m !! keyValue); simpl; eauto.
Qed.

(** C4. The record and the error [rrFromMap] returns for a non-nil field
    map are those of the RR constructor on a line that starts with the
    owner name, followed by a space and the other parts. The owner name is
    the domain name when the field map has no hostname or has the hostname
    "@"; a hostname other than "@" is kept as it is when it ends with the
    domain name, and has "." and the domain name appended when it does
    not. *)
Theorem rrFromMap_owner_name (typ fqdn : string) (m : gmap string string) :
  ∃ owner rest,
    rrFromMap_parts typ fqdn m = owner :: rest ∧
    (rrFromMap typ fqdn (Some m)).1
    = NewRR (owner +:+ " " +:+ Join rest " ") ∧
    match m !! keyHostname with
    | None => owner = fqdn
    | Some v =>
        (v = "@" → owner = fqdn) ∧
        (v ≠ "@" → (∃ p, v = p +:+ fqdn) → owner = v) ∧
        (v ≠ "@" → (∀ p, v ≠ p +:+ fqdn) → owner = v +:+ "." +:+ fqdn)
    end.
Proof.
  assert (∀ owner rest,
    rrFromMap_parts typ fqdn m = owner :: rest →
    (rrFromMap typ fqdn (Some m)).1
    = NewRR (owner +:+ " " +:+ Join rest " ")) as Hline.
  { intros owner rest Hparts. unfold rrFromMap. rewrite Hparts.
    assert (Join (owner :: rest) " " = owner +:+ " " +:+ Join rest " ") as ->.
    { destruct rest as [|ttl rest]; [|reflexivity].
      revert Hparts. unfold rrFromMap_parts.
      destruct (m !! keyHostname), (m !! keyTTL), (String.eqb typ "MX"),
        (m !! keyPriority), (m !! keyValue); discriminate. }
    by destruct (NewRR _). }
  destruct (rrFromMap_parts_cons typ fqdn m) as [rest Hparts].
  eexists _, rest. split; [exact Hparts|].
  split; [by apply Hline|].
  destruct (m !! keyHostname) as [v|] eqn:Hh; [|reflexivity].
  destruct (String.eqb_spec v "@") as [->|Hat].
  - repeat split; intros; congruence.
  - destruct (HasSuffix v fqdn) eqn:Hs; simpl.
    + apply HasSuffix_spec in Hs.
      split; [congruence|]. split; [done|].
      intros _ Hno. destruct Hs as [p Hp]. by destruct (Hno p).
    + pose proof (proj1 (HasSuffix_false _ _) Hs) as Hno.
      split; [congruence|]. split; [|done].
      intros _ [p Hp]. by destruct (Hno p).
Qed.

(** C3. For a non-nil field map, [rrFromMap] hands to the RR constructor
    the join, with single spaces, of: the owner name; the ttl field, or
    the default TTL when there is none; IN; the type name; the priority
    field when the type is MX and the field is present; the value field
    when present, quoted when the type is TXT. On another type than MX a
    priority field changes nothing. *)
Theorem rrFromMap_record_line (typ fqdn : string) (m : gmap string string) :
  let owner := hd "" (rrFromMap_parts typ fqdn m) in
  let line :=
    Join
      ([owner; default defaultTTL (m !! keyTTL); "IN"; typ]
       ++ (if decide (typ = "MX") then option_list (m !! keyPriority) else [])
       ++ option_list
            ((if decide (typ = "TXT") then Quote else id) <$> m !! keyValue))
      " " in
  (rrFromMap typ fqdn (Some m)).1 = NewRR line ∧
  (typ ≠ "MX" →
   rrFromMap typ fqdn (Some (delete keyPriority m)) =
   rrFromMap typ fqdn (Some m)).
Proof.
  intros owner line. split.
  - assert (Join (rrFromMap_parts typ fqdn m) " " = line) as Hline.
    { subst line owner. f_equal. unfold rrFromMap_parts.
      destruct (m !! keyHostname), (m !! keyTTL), (m !! keyPriority),
        (m !! keyValue); simpl;
        destruct (String.eqb_spec typ "MX"), (String.eqb_spec typ "TXT");
        repeat case_decide; simpl; congruence. }
    unfold rrFromMap. rewrite Hline. by destruct (NewRR line).
  - intros Hmx. unfold rrFromMap, rrFromMap_parts.
    assert (String.eqb typ "MX" = false) as -> by by apply String.eqb_neq.
    rewrite !lookup_delete_ne by done. reflexivity.
Qed.

(** ** The query resolver *)

(** What the proofs use of the DNS library's [SetReply]: it sets the
    success status and leaves the three sections of the receiver alone. *)
Hypothesis SetReply_Rcode :
  ∀ m r, dns.Rcode (SetReply m r) = dns.RcodeSuccess.
Hypothesis SetReply_Answer : ∀ m r, dns.Answer (SetReply m r) = dns.Answer m.
Hypothesis SetReply_Ns : ∀ m r, dns.Ns (SetReply m r) = dns.Ns m.
Hypothesis SetReply_Extra : ∀ m r, dns.Extra (SetReply m r) = dns.Extra m.

Lemma concat_Permutation {A : Type} (xs ys : list (list A)) :
  xs ≡ₚ ys → concat xs ≡ₚ concat ys.
Proof.
  induction 1 as [|x xs ys _ IH|x y xs|xs ys zs _ IH1 _ IH2]; simpl.
  - done.
  - by rewrite IH.
  - rewrite !app_assoc. f_equiv. apply Permutation_app_comm.
  - by etrans.
Qed.

Lemma range_data_Answer (ord : list (Z * list RR)) (m : dns.Msg RR) :
  dns.Answer (range_data ord m) = dns.Answer m ++ concat ord.*2.
Proof.
  revert m. induction ord as [|[t rrs] ord IH]; intros m; simpl.
  - by rewrite app_nil_r.
  - rewrite IH. simpl. by rewrite <- app_assoc.
Qed.

Lemma range_data_frame (ord : list (Z * list RR)) (m : dns.Msg RR) :
  dns.Rcode (range_data ord m) = dns.Rcode m ∧
  dns.Ns (range_data ord m) = dns.Ns m ∧
  dns.Extra (range_data ord m) = dns.Extra m.
Proof.
  revert m. induction ord as [|[t rrs] ord IH]; intros m; simpl; [done|].
  destruct (IH (dns.append_Answer m rrs)) as (-> & -> & ->). done.
Qed.

(** What one question adds to the answer section. *)
Lemma range_Question_frame recs visit i qs (m : dns.Msg RR) :
  dns.Rcode (range_Question recs visit i qs m) = dns.Rcode m ∧
  dns.Ns (range_Question recs visit i qs m) = dns.Ns m ∧
  dns.Extra (range_Question recs visit i qs m) = dns.Extra m.
Proof.
  revert i m. induction qs as [|q qs IH]; intros i m; simpl; [done|].
  destruct (IH (S i)
    (if dns.Qtype q =? dns.TypeANY then range_data (visit i) m
     else match data recs !! dns.Qtype q with
          | Some rrs => dns.append_Answer m rrs
          | None => m
          end)) as (-> & -> & ->).
  destruct (dns.Qtype q =? dns.TypeANY).
  - apply range_data_frame.
  - by destruct (data recs !! dns.Qtype q).
Qed.

Lemma range_Question_Answer recs visit i qs (m : dns.Msg RR) :
  dns.Answer (range_Question recs visit i qs m) =
  dns.Answer m ++
  concat (imap (λ j q,
            if dns.Qtype q =? dns.TypeANY then concat (visit (i + j)%nat).*2
            else default [] (data recs !! dns.Qtype q)) qs).
Proof.
  revert i m. induction qs as [|q qs IH]; intros i m; simpl.
  - by rewrite app_nil_r.
  - rewrite IH. rewrite Nat.add_0_r.
    rewrite (imap_ext _ (λ j q0,
      if dns.Qtype q0 =? dns.TypeANY then concat (visit (i + S j)%nat).*2
      else default [] (data recs !! dns.Qtype q0))); last first.
    { intros j q0 _. simpl. by rewrite Nat.add_succ_r. }
    rewrite app_assoc. f_equal.
    destruct (dns.Qtype q =? dns.TypeANY).
    + apply range_data_Answer.
    + destruct (data recs !! dns.Qtype q); simpl; by rewrite ?app_nil_r.
Qed.

(** Every entry of the type map is one contiguous block of what an ANY
    question adds, whatever the visiting order. *)
Lemma any_contribution_blocks (d : gmap Z (list RR)) (ord : list (Z * list RR)) :
  ord ≡ₚ map_to_list d →
  concat ord.*2 ≡ₚ concat (map_to_list d).*2 ∧
  ∀ t rrs, d !! t = Some rrs → ∃ pre post, concat ord.*2 = pre ++ rrs ++ post.
Proof.
  intros Hord. split.
  - apply concat_Permutation. by rewrite Hord.
  - intros t rrs Ht.
    assert ((t, rrs) ∈ ord) as Hin.
    { rewrite Hord. by apply elem_of_map_to_list. }
    apply list_elem_of_split in Hin as (l1 & l2 & ->).
    exists (concat l1.*2), (concat l2.*2).
    by rewrite fmap_app, concat_app.
Qed.

Lemma Forall2_imap_same {A B : Type} (P : A → B → Prop) (f : nat → A → B)
    (l : list A) :
  (∀ j x, l !! j = Some x → P x (f j x)) → Forall2 P l (imap f l).
Proof.
  revert f. induction l as [|x l IH]; intros f Hf; simpl; constructor.
  - by apply (Hf 0%nat).
  - apply IH. intros j y Hj. by apply (Hf (S j)).
Qed.

(** C1. In both entry points the answer section of the response written
    is the concatenation of one block per question, in question order. The
    block of an ANY question holds every stored record of every type and
    nothing else, each type's records together and in stored order; the
    block of any other question is the sequence stored under exactly that
    type, and is empty when the type is absent. The response has the
    success status in every case. *)
Theorem handler_answer_section (recs : records RR)
    (visit : nat → list (Z * list RR)) (r : dns.Msg RR) (w : World) :
  (∀ i, visit i ≡ₚ map_to_list (data recs)) →
  ∃ m blocks,
    written (handler recs visit r w) = Some m ∧
    written (handler_noproxy recs visit r w).1 = Some m ∧
    dns.Rcode m = dns.RcodeSuccess ∧
    dns.Answer m = concat blocks ∧
    Forall2 (answers recs) (dns.Question_ r) blocks.
Proof.
  intros Hvisit. eexists _, _. split; [reflexivity|]. split; [reflexivity|].
  unfold handler_reply.
  assert (∀ m : dns.Msg RR,
    dns.Rcode (match data recs !! dns.TypeAAAA with
               | Some rrs => dns.append_Extra m rrs | None => m end)
    = dns.Rcode m ∧
    dns.Answer (match data recs !! dns.TypeAAAA with
               | Some rrs => dns.append_Extra m rrs | None => m end)
    = dns.Answer m) as HAAAA
    by (intros; by destruct (data recs !! dns.TypeAAAA)).
  assert (∀ m : dns.Msg RR,
    dns.Rcode (match data recs !! dns.TypeA with
               | Some rrs => dns.append_Extra m rrs | None => m end)
    = dns.Rcode m ∧
    dns.Answer (match data recs !! dns.TypeA with
               | Some rrs => dns.append_Extra m rrs | None => m end)
    = dns.Answer m) as HA by (intros; by destruct (data recs !! dns.TypeA)).
  assert (∀ m : dns.Msg RR,
    dns.Rcode (match data recs !! dns.TypeNS with
               | Some rrs => dns.append_Ns m rrs | None => m end)
    = dns.Rcode m ∧
    dns.Answer (match data recs !! dns.TypeNS with
               | Some rrs => dns.append_Ns m rrs | None => m end)
    = dns.Answer m) as HNS by (intros; by destruct (data recs !! dns.TypeNS)).
  cbv zeta.
  rewrite (proj1 (HAAAA _)), (proj2 (HAAAA _)), (proj1 (HA _)), (proj2 (HA _)),
    (proj1 (HNS _)), (proj2 (HNS _)).
  rewrite (proj1 (range_Question_frame _ _ _ _ _)), SetReply_Rcode.
  rewrite range_Question_Answer, SetReply_Answer. simpl.
  split; [reflexivity|]. split; [reflexivity|].
  apply Forall2_imap_same. intros j q _. unfold answers.
  case_decide as Hq.
  - rewrite Hq. simpl. apply any_contribution_blocks, Hvisit.
  - apply Z.eqb_neq in Hq. rewrite Hq. by destruct (data recs !! dns.Qtype q).
Qed.

(** C2. Whatever the questions, the authority section is the stored NS
    sequence and the additional section is the stored A sequence followed
    by the stored AAAA sequence, each once. *)
Theorem handler_authority_additional (recs : records RR)
    (visit : nat → list (Z * list RR)) (r : dns.Msg RR) (w : World) :
  ∃ m,
    written (handler recs visit r w) = Some m ∧
    dns.Ns m = default [] (data recs !! dns.TypeNS) ∧
    dns.Extra m =
      default [] (data recs !! dns.TypeA) ++
      default [] (data recs !! dns.TypeAAAA).
Proof.
  eexists. split; [reflexivity|].
  unfold handler_reply. cbv zeta.
  pose proof (range_Question_frame recs visit 0 (dns.Question_ r)
                (SetReply dns.new_Msg r)) as (_ & HNs & HExtra).
  rewrite SetReply_Ns in HNs. rewrite SetReply_Extra in HExtra.
  destruct (data recs !! dns.TypeNS), (data recs !! dns.TypeA),
    (data recs !! dns.TypeAAAA); simpl; rewrite ?HNs, ?HExtra; simpl;
    by rewrite ?app_nil_r.
Qed.

(** C10. A query answered from the record store leaves the request as it
    came in. With an incoming status of 0 the logger therefore reads 0 and
    marks every line of a locally answered query as a success, whatever
    the response holds. *)
Theorem handler_leaves_request (recs : records RR)
    (visit : nat → list (Z * list RR)) (r : dns.Msg RR) (w : World) :
  dns.Rcode r = 0 →
  request (handler recs visit r w) = r ∧
  request (serve_domain recs visit r w).1 = r ∧
  dns.Rcode (request (serve_domain recs visit r w).1) = 0 ∧
  (serve_domain recs visit r w).2 =
    if verbose then
      map (λ q, mkLine cOverride cSuccess (TrimLeft (Question_String q) ";"))
          (dns.Question_ r)
    else [].
Proof.
  intros Hr. unfold serve_domain, logRequest. simpl.
  rewrite Hr. simpl. done.
Qed.

(** ** The proxy forwarder *)

(** What the proofs use of the DNS library's [SetRcode]: the receiver ends
    up with the status it was given. *)
Hypothesis SetRcode_Rcode : ∀ m r rcode, dns.Rcode (SetRcode m r rcode) = rcode.

Local Arguments address : simpl never.

Lemma range_Servers_cons (ns : string) (servers : list string)
    (r : dns.Msg RR) (w : World) (m : option (dns.Msg RR))
    (err : option proxy_error) :
  range_Servers (ns :: servers) r w m err =
  let '(m1, err1, w1) := Exchange w r (address ns) in
  match err1 with
  | None => (m1, None, w1, [address ns])
  | Some e =>
      let '(m2, err2, w2, calls) :=
        range_Servers servers r w1 m1 (Some (errExchange e)) in
      (m2, err2, w2, address ns :: calls)
  end.
Proof. reflexivity. Qed.

(** The loop over a list of servers whose exchanges all fail: every server
    is tried, in order, and the loop ends with an error. *)
Lemma range_Servers_all_fail (servers : list string) (r : dns.Msg RR)
    (w : World) (m : option (dns.Msg RR)) (err : option proxy_error) :
  err ≠ None →
  (∀ i ns, servers !! i = Some ns →
     (Exchange (world_after (address <$> take i servers) r w) r (address ns)).1.2
     ≠ None) →
  ∃ m' e,
    range_Servers servers r w m err =
    (m', Some e, world_after (address <$> servers) r w, address <$> servers).
Proof.
  revert w m err. induction servers as [|ns servers IH]; intros w m err He Hall.
  - destruct err as [e|]; [|done]. by exists m, e.
  - rewrite range_Servers_cons.
    pose proof (Hall 0%nat ns eq_refl) as H0. simpl in H0.
    destruct (Exchange w r (address ns)) as [[m1 [e1|]] w1] eqn:Hex; [|done].
    destruct (IH w1 m1 (Some (errExchange e1))) as (m' & e & ->); [done| |].
    + intros i ns' Hi. specialize (Hall (S i) ns' Hi). simpl in Hall.
      by rewrite Hex in Hall.
    + exists m', e. simpl. by rewrite Hex.
Qed.

(** The loop when exchange number [n] is the first to succeed: the first
    [n + 1] servers are tried, in order, and the loop ends with the
    message of the last one and no error. *)
Lemma range_Servers_first_success (servers : list string) (r : dns.Msg RR)
    (w : World) (m : option (dns.Msg RR)) (err : option proxy_error)
    (n : nat) (ns : string) (m0 : option (dns.Msg RR)) (w' : World) :
  servers !! n = Some ns →
  (∀ i ns', (i < n)%nat → servers !! i = Some ns' →
     (Exchange (world_after (address <$> take i servers) r w) r (address ns')).1.2
     ≠ None) →
  Exchange (world_after (address <$> take n servers) r w) r (address ns)
  = (m0, None, w') →
  range_Servers servers r w m err =
  (m0, None, w', address <$> take (S n) servers).
Proof.
  revert servers w m err.
  induction n as [|n IH]; intros servers w m err Hn Hbefore Hok.
  - destruct servers as [|ns0 servers]; [done|]. simpl in Hn, Hok.
    injection Hn as ->. rewrite range_Servers_cons, Hok.
    reflexivity.
  - destruct servers as [|ns0 servers]; [done|]. simpl in Hn, Hok.
    pose proof (Hbefore 0%nat ns0 (Nat.lt_0_succ n) eq_refl) as H0.
    simpl in H0. rewrite range_Servers_cons.
    destruct (Exchange w r (address ns0)) as [[m1 [e1|]] w1] eqn:Hex; [|done].
    rewrite (IH servers w1 m1 (Some (errExchange e1)) Hn); [done| |].
    + intros i ns' Hi Hs.
      specialize (Hbefore (S i) ns' (proj1 (Nat.succ_lt_mono _ _) Hi) Hs).
      simpl in Hbefore. by rewrite Hex in Hbefore.
    + exact Hok.
Qed.

(** C6. With forwarding enabled, when exchange number [n] is the first
    that succeeds, the forwarder has exchanged with the first [n + 1]
    configured servers, in the configured order, and with no other; it
    writes the message of that exchange as it is, and leaves the request
    alone. *)
Theorem proxyHandler_first_success (r : dns.Msg RR) (w : World)
    (n : nat) (ns : string) (m0 : option (dns.Msg RR)) (w' : World) :
  proxy = true →
  Servers !! n = Some ns →
  (∀ i ns', (i < n)%nat → Servers !! i = Some ns' →
            (exchange_nr i ns' r w).1.2 ≠ None) →
  exchange_nr n ns r w = (m0, None, w') →
  proxyHandler r w = mkEffects m0 r w' (address <$> take (S n) Servers).
Proof.
  intros Hproxy Hn Hbefore Hok. unfold proxyHandler. rewrite Hproxy.
  by rewrite (range_Servers_first_success Servers r w None
                (Some errNotProxied) n ns m0 w' Hn Hbefore Hok).
Qed.

(** C7. With forwarding disabled, with no upstream server, or with every
    exchange failing, the forwarder returns after writing a response with
    the server-failure status, and the request it leaves behind has the
    server-failure status too, which is what the logger reads. *)
Theorem proxyHandler_server_failure (r : dns.Msg RR) (w : World) :
  proxy = false ∨ Servers = [] ∨
  (∀ i ns, Servers !! i = Some ns → (exchange_nr i ns r w).1.2 ≠ None) →
  ∃ m,
    written (proxyHandler r w) = Some m ∧
    dns.Rcode m = dns.RcodeServerFailure ∧
    request (proxyHandler r w) = dns.set_Rcode r dns.RcodeServerFailure ∧
    dns.Rcode (request (proxyHandler r w)) = dns.RcodeServerFailure ∧
    ∀ l, l ∈ (serve_root r w).2 → line_res l = cFailure.
Proof.
  intros Hcase.
  assert (∃ m0 e w1 calls,
    (if proxy then range_Servers Servers r w None (Some errNotProxied)
     else (None, Some errNotProxied, w, [])) = (m0, Some e, w1, calls))
    as (m0 & e & w1 & calls & Hloop).
  { destruct proxy eqn:Hproxy; [|by eexists _, _, _, _].
    destruct Hcase as [?|[Hnil|Hall]]; [done| |].
    - rewrite Hnil. by eexists _, _, _, _.
    - destruct (range_Servers_all_fail Servers r w None (Some errNotProxied))
        as (m' & e & ->); [done|exact Hall|]. by eexists _, _, _, _. }
  assert (proxyHandler r w =
    mkEffects
      (Some (SetRcode (match m0 with None => dns.new_Msg | Some m => m end)
                      r dns.RcodeServerFailure))
      (dns.set_Rcode r dns.RcodeServerFailure) w1 calls) as Hrun.
  { unfold proxyHandler. by rewrite Hloop. }
  eexists. rewrite Hrun. simpl.
  split; [reflexivity|]. split; [apply SetRcode_Rcode|].
  split; [reflexivity|]. split; [reflexivity|].
  intros l. unfold serve_root, logRequest. rewrite Hrun. simpl.
  destruct verbose; [|by intros ?%not_elem_of_nil].
  intros (q & -> & _)%list_elem_of_fmap. reflexivity.
Qed.

(** ** The zone normalizer *)

(** What the proofs use of [strings.ToUpper]: upper-casing twice is
    upper-casing once. *)
Hypothesis ToUpper_idemp : ∀ s, ToUpper (ToUpper s) = ToUpper s.

Lemma supportedTypes_None (typ : string) :
  supportedTypes !! typ = None ↔ typ ∉ supported_names.
Proof.
  unfold supportedTypes. rewrite <- not_elem_of_list_to_map. reflexivity.
Qed.

(** What [rrFromMap] returns: no log line without an error; with an error,
    the constructor's own error and one log line holding the record line. *)
Lemma rrFromMap_result (typ fqdn : string) (r : option (gmap string string))
    (rr : option RR) (err : option ParseError) (out : list string) :
  rrFromMap typ fqdn r = (rr, err, out) →
  (∀ rr0, rr = Some rr0 → ∃ s, (NewRR s).1 = Some rr0) ∧
  match err with
  | None => out = []
  | Some e0 =>
      ∃ fm, r = Some fm ∧
        (NewRR (Join (rrFromMap_parts typ fqdn fm) " ")).2 = Some e0 ∧
        out = [attempt_line (Join (rrFromMap_parts typ fqdn fm) " ")]
  end.
Proof.
  unfold rrFromMap. destruct r as [fm|].
  - destruct (NewRR (Join (rrFromMap_parts typ fqdn fm) " ")) as [rr1 err1] eqn:Hnew.
    intros [= <- <- <-]. split.
    + intros rr0 ->. eexists. by rewrite Hnew.
    + destruct err1; [|done]. exists fm. by rewrite Hnew.
  - intros [= <- <- <-]. split; [done|done].
Qed.

(** [recs.data[iType] = append(recs.data[iType], rr)] keeps a record set
    well formed. *)
Lemma well_formed_append (recs : records RR) (iType : Z) (rr : RR) :
  (∃ s, (NewRR s).1 = Some rr) →
  well_formed recs →
  well_formed
    (mkRecords (fqdn recs)
       (<[iType := default [] (data recs !! iType) ++ [rr]]> (data recs))).
Proof.
  intros Hrr Hwf t l. simpl. rewrite lookup_insert.
  case_decide as Ht; [|by apply Hwf].
  intros [= <-]. split.
  - by destruct (default [] (data recs !! iType)).
  - intros rr' [Hold| ->%list_elem_of_singleton]%elem_of_app; [|done].
    destruct (data recs !! iType) as [l|] eqn:Hl; simpl in Hold.
    + by apply (Hwf iType l).
    + by apply not_elem_of_nil in Hold.
Qed.

(** The inner loop: it keeps the domain name and well-formedness; it logs
    nothing unless it fails, and it fails only with the error of the RR
    constructor on a record line, which it logs. *)
Lemma range_v_result (typ : string) (v : list (option (gmap string string)))
    (recs recs' : records RR) (e : option error) (out : list string) :
  range_v typ v recs = (recs', e, out) →
  fqdn recs' = fqdn recs ∧
  (well_formed recs → well_formed recs') ∧
  match e with
  | None => out = []
  | Some err =>
      ∃ e0 line, err = errRR e0 ∧ (NewRR line).2 = Some e0 ∧
                 out = [attempt_line line]
  end.
Proof.
  revert typ recs recs' e out.
  induction v as [|r v IH]; intros typ recs recs' e out; simpl.
  - by intros [= <- <- <-].
  - destruct (supportedTypes !! ToUpper typ) as [iType|]; [|apply IH].
    destruct (rrFromMap (ToUpper typ) (fqdn recs) r) as [[rr err] out1] eqn:Hrr.
    apply rrFromMap_result in Hrr as [Hsome Herr].
    assert (∀ e0, err = Some e0 →
      (recs, Some (errRR e0), out1) = (recs', e, out) →
      fqdn recs' = fqdn recs ∧ (well_formed recs → well_formed recs') ∧
      match e with
      | None => out = []
      | Some err =>
          ∃ e0 line, err = errRR e0 ∧ (NewRR line).2 = Some e0 ∧
                     out = [attempt_line line]
      end) as Hfail.
    { intros e0 -> [= <- <- <-]. split; [done|]. split; [done|].
      destruct Herr as (fm & _ & Hnew & ->). by eexists _, _. }
    destruct rr as [rr0|], err as [e0|]; cbn; try by apply (Hfail e0).
    + subst out1.
      destruct (range_v _ v _) as [[recs2 e2] out2] eqn:Hrec.
      intros [= <- <- <-].
      apply IH in Hrec as (Hfqdn & Hwf & He). simpl in Hfqdn.
      split; [done|]. split; [|done].
      intros Hrecs. apply Hwf, well_formed_append; [|done]. by apply Hsome.
    + subst out1.
      destruct (range_v _ v _) as [[recs2 e2] out2] eqn:Hrec.
      intros [= <- <- <-]. by apply IH in Hrec.
Qed.

(** The outer loop, likewise. *)
Lemma range_m_result (m : typeMap)
    (recs recs' : records RR) (e : option error) (out : list string) :
  range_m m recs = (recs', e, out) →
  fqdn recs' = fqdn recs ∧
  (well_formed recs → well_formed recs') ∧
  match e with
  | None => out = []
  | Some err =>
      ∃ e0 line, err = errRR e0 ∧ (NewRR line).2 = Some e0 ∧
                 out = [attempt_line line]
  end.
Proof.
  revert recs recs' e out.
  induction m as [|[typ v] m IH]; intros recs recs' e out; simpl.
  - by intros [= <- <- <-].
  - destruct (range_v typ v recs) as [[recs1 e1] out1] eqn:Hv.
    apply range_v_result in Hv as (Hfqdn1 & Hwf1 & He1).
    destruct e1 as [err1|].
    { intros [= <- <- <-]. done. }
    subst out1.
    destruct (range_m m recs1) as [[recs2 e2] out2] eqn:Hm.
    intros [= <- <- <-].
    apply IH in Hm as (Hfqdn2 & Hwf2 & He2).
    split; [congruence|]. split; [auto|done].
Qed.

(** A rejected record line that the inner loop reaches, or an earlier
    one, makes it fail. *)
Lemma range_v_rejected (typ : string) (v : list (option (gmap string string)))
    (recs : records RR) (fm : gmap string string) :
  Some fm ∈ v →
  is_Some (supportedTypes !! ToUpper typ) →
  is_Some (NewRR (Join (rrFromMap_parts (ToUpper typ) (fqdn recs) fm) " ")).2 →
  is_Some (range_v typ v recs).1.2.
Proof.
  revert typ recs. induction v as [|r v IH]; intros typ recs Hin [iType Hty] Hrej.
  - by apply not_elem_of_nil in Hin.
  - simpl. rewrite Hty.
    destruct (rrFromMap (ToUpper typ) (fqdn recs) r) as [[rr err] out1] eqn:Hrr.
    apply elem_of_cons in Hin as [<-|Hin].
    + unfold rrFromMap in Hrr. destruct Hrej as [e0 He0].
      destruct (NewRR _) as [rr1 err1]. simpl in He0. subst err1.
      injection Hrr as <- <- <-. by destruct rr1.
    + destruct rr as [rr0|], err as [e0|]; cbn; try done.
      * destruct (range_v _ v _) as [[recs2 e2] out2] eqn:Hrec. simpl.
        replace e2 with (range_v (ToUpper typ) v
          (mkRecords (fqdn recs)
             (<[iType := default [] (data recs !! iType) ++ [rr0]]> (data recs)))).1.2
          by by rewrite Hrec.
        apply IH; [done| |]; by rewrite ToUpper_idemp.
      * destruct (range_v _ v _) as [[recs2 e2] out2] eqn:Hrec. simpl.
        replace e2 with (range_v (ToUpper typ) v recs).1.2 by by rewrite Hrec.
        apply IH; [done| |]; by rewrite ToUpper_idemp.
Qed.

Lemma range_m_rejected (m : typeMap)
    (recs : records RR) :
  rejected_in (fqdn recs) m → is_Some (range_m m recs).1.2.
Proof.
  revert recs. induction m as [|[typ v] m IH]; intros recs
    (typ0 & v0 & fm & Hin & Hfm & Hty & Hrej).
  - by apply not_elem_of_nil in Hin.
  - simpl. destruct (range_v typ v recs) as [[recs1 e1] out1] eqn:Hv.
    destruct e1 as [err1|]; [done|].
    apply elem_of_cons in Hin as [[= <- <-]|Hin].
    + pose proof (range_v_rejected typ0 v0 recs fm Hfm Hty Hrej) as Hsome.
      rewrite Hv in Hsome. by destruct Hsome.
    + apply range_v_result in Hv as (Hfqdn & _ & _).
      destruct (range_m m recs1) as [[recs2 e2] out2] eqn:Hm. simpl.
      replace e2 with (range_m m recs1).1.2 by by rewrite Hm.
      apply IH. rewrite Hfqdn. by exists typ0, v0, fm.
Qed.

(** The loop over the domains.  When it fails, the store is the one the
    domains before the failing one left: the failing domain is not stored,
    the earlier ones are. *)
Lemma range_domains_result
    (dm : domainMap)
    (d d' : gmap string (records RR)) (e : option error) (out : list string) :
  range_domains dm d = (d', e, out) →
  match e with
  | None => out = []
  | Some err =>
      ∃ dm1 dom j dm2 rt',
        dm = dm1 ++ (dom, j) :: dm2 ∧
        range_domains dm1 d = (d', None, []) ∧
        records_UnmarshalJSON (mkRecords (Fqdn (ToLower dom)) ∅) j
        = (rt', Some err, out)
  end.
Proof.
  revert d d' e out. induction dm as [|[dom j] dm IH]; intros d d' e out; simpl.
  - by intros [= <- <- <-].
  - destruct (records_UnmarshalJSON _ j) as [[rt1 e1] out1] eqn:Hrt.
    destruct e1 as [err1|].
    { intros [= <- <- <-]. by exists [], dom, j, dm, rt1. }
    assert (out1 = []) as ->.
    { destruct j as [?|m]; simpl in Hrt; [done|].
      by apply range_m_result in Hrt as (_ & _ & ->). }
    destruct (range_domains dm _) as [[d2 e2] out2] eqn:Hdm.
    intros [= <- <- <-]. apply IH in Hdm.
    destruct e2 as [err2|]; [|done].
    destruct Hdm as (dm1 & dom' & j' & dm2 & rt' & -> & Hpre & Hfail).
    exists ((dom, j) :: dm1), dom', j', dm2, rt'.
    split; [done|]. split; [|done]. simpl. by rewrite Hrt, Hpre.
Qed.

Lemma range_domains_rejected
    (dm : domainMap)
    (d : gmap string (records RR)) (dom : string)
    (m : typeMap) :
  (dom, inr m) ∈ dm →
  rejected_in (Fqdn (ToLower dom)) m →
  is_Some (range_domains dm d).1.2.
Proof.
  revert d. induction dm as [|[dom0 j0] dm IH]; intros d Hin Hrej.
  - by apply not_elem_of_nil in Hin.
  - simpl. destruct (records_UnmarshalJSON _ j0) as [[rt1 e1] out1] eqn:Hrt.
    destruct e1 as [err1|]; [done|].
    apply elem_of_cons in Hin as [[= <- <-]|Hin].
    + simpl in Hrt.
      pose proof (range_m_rejected m (mkRecords (Fqdn (ToLower dom)) ∅) Hrej)
        as Hsome.
      rewrite Hrt in Hsome. by destruct Hsome.
    + destruct (range_domains dm _) as [[d2 e2] out2] eqn:Hdm. simpl.
      replace e2 with (range_domains dm (<[Fqdn (ToLower dom0) := rt1]> d)).1.2
        by by rewrite Hdm.
      by apply IH.
Qed.

(** Both loops over the document run through a concatenation part by
    part, so entries that behave alike can be exchanged in place. *)
Lemma range_m_app (m1 m2 : typeMap)
    (recs : records RR) :
  range_m (m1 ++ m2) recs =
  match range_m m1 recs with
  | (recs', Some e, out) => (recs', Some e, out)
  | (recs', None, out) =>
      let '(recs'', e, out') := range_m m2 recs' in (recs'', e, out ++ out')
  end.
Proof.
  revert recs. induction m1 as [|[typ v] m1 IH]; intros recs; simpl.
  - by destruct (range_m m2 recs) as [[? ?] ?].
  - destruct (range_v typ v recs) as [[recs1 [e1|]] out1]; [done|].
    rewrite IH. destruct (range_m m1 recs1) as [[recs2 [e2|]] out2]; [done|].
    destruct (range_m m2 recs2) as [[recs3 e3] out3]. by rewrite app_assoc.
Qed.

Lemma range_m_exchange
    (l l' m1 m2 : typeMap) :
  (∀ recs, range_m l recs = range_m l' recs) →
  ∀ recs, range_m (m1 ++ l ++ m2) recs = range_m (m1 ++ l' ++ m2) recs.
Proof.
  intros Hl recs. rewrite !(range_m_app m1).
  destruct (range_m m1 recs) as [[recs1 [e1|]] out1]; [done|].
  by rewrite !(range_m_app _ m2), Hl.
Qed.

Lemma range_domains_app
    (dm1 dm2 : domainMap)
    (d : gmap string (records RR)) :
  range_domains (dm1 ++ dm2) d =
  match range_domains dm1 d with
  | (d', Some e, out) => (d', Some e, out)
  | (d', None, out) =>
      let '(d'', e, out') := range_domains dm2 d' in (d'', e, out ++ out')
  end.
Proof.
  revert d. induction dm1 as [|[dom j] dm1 IH]; intros d; simpl.
  - by destruct (range_domains dm2 d) as [[? ?] ?].
  - destruct (records_UnmarshalJSON _ j) as [[rt1 [e1|]] out1]; [done|].
    rewrite IH.
    destruct (range_domains dm1 _) as [[d2 [e2|]] out2]; [done|].
    destruct (range_domains dm2 d2) as [[d3 e3] out3]. by rewrite app_assoc.
Qed.

Lemma range_domains_exchange
    (l l' dm1 dm2 : domainMap) :
  (∀ d, range_domains l d = range_domains l' d) →
  ∀ d, range_domains (dm1 ++ l ++ dm2) d = range_domains (dm1 ++ l' ++ dm2) d.
Proof.
  intros Hl d. rewrite !(range_domains_app dm1).
  destruct (range_domains dm1 d) as [[d1 [e1|]] out1]; [done|].
  by rewrite !(range_domains_app _ dm2), Hl.
Qed.

(** The loops see a type name only through its upper-cased form and a
    domain key only through [Fqdn (ToLower _)]. *)
Lemma range_v_ToUpper (typ typ' : string)
    (v : list (option (gmap string string))) (recs : records RR) :
  ToUpper typ = ToUpper typ' → range_v typ v recs = range_v typ' v recs.
Proof. intros H. destruct v; simpl; by rewrite ?H. Qed.

(** The inner loop skips every field map of an unsupported type. *)
Lemma range_v_unsupported (typ : string)
    (v : list (option (gmap string string))) (recs : records RR) :
  ToUpper typ ∉ supported_names → range_v typ v recs = (recs, None, []).
Proof.
  intros Hno%supportedTypes_None. revert typ Hno.
  induction v as [|r v IH]; intros typ Hno; simpl; [done|].
  rewrite Hno. apply IH. by rewrite ToUpper_idemp.
Qed.

(** Exchanging one entry of one domain for entries that behave alike. *)
Lemma data_UnmarshalJSON_exchange_types
    (l l' : typeMap) :
  (∀ recs, range_m l recs = range_m l' recs) →
  ∀ d dm1 dom m1 m2 dm2,
    data_UnmarshalJSON d (inr (dm1 ++ (dom, inr (m1 ++ l ++ m2)) :: dm2)) =
    data_UnmarshalJSON d (inr (dm1 ++ (dom, inr (m1 ++ l' ++ m2)) :: dm2)).
Proof.
  intros Hl d dm1 dom m1 m2 dm2. destruct d as [d|]; [|done]. simpl.
  pose proof (range_domains_exchange
    [(dom, inr (m1 ++ l ++ m2))] [(dom, inr (m1 ++ l' ++ m2))] dm1 dm2) as Hex.
  simpl in Hex. rewrite Hex; [done|].
  intros d0. by rewrite (range_m_exchange l l' m1 m2 Hl).
Qed.

(** The store after the loop over the domains: well-formedness is kept,
    no key is lost, and every new key is [Fqdn (ToLower _)] of a key of
    the document; when the loop succeeds, every key of the document is
    there in that form. *)
Lemma range_domains_store
    (dm : domainMap)
    (d d' : gmap string (records RR)) (e : option error) (out : list string) :
  range_domains dm d = (d', e, out) →
  ((∀ k recs, d !! k = Some recs → well_formed recs) →
   (∀ k recs, d' !! k = Some recs → well_formed recs)) ∧
  (∀ k, is_Some (d !! k) → is_Some (d' !! k)) ∧
  (∀ k, is_Some (d' !! k) →
        is_Some (d !! k) ∨ ∃ key j, (key, j) ∈ dm ∧ k = Fqdn (ToLower key)) ∧
  (e = None → ∀ key j, (key, j) ∈ dm → is_Some (d' !! Fqdn (ToLower key))).
Proof.
  revert d d' e out. induction dm as [|[dom j] dm IH]; intros d d' e out; simpl.
  - intros [= <- <- <-]. split; [done|]. split; [done|]. split; [by left|].
    by intros _ key j ?%not_elem_of_nil.
  - destruct (records_UnmarshalJSON _ j) as [[rt1 e1] out1] eqn:Hrt.
    destruct e1 as [err1|].
    { intros [= <- <- <-]. split; [done|]. split; [done|]. split; [by left|done]. }
    destruct (range_domains dm _) as [[d2 e2] out2] eqn:Hdm.
    intros [= <- <- <-]. apply IH in Hdm as (Hwf & Hmono & Hkeys & Hall).
    split; [|split; [|split]].
    + intros Hd. apply Hwf. intros k recs. rewrite lookup_insert.
      case_decide as Hk; [|by apply Hd]. intros [= <-].
      destruct j as [?|m]; simpl in Hrt; [done|].
      apply range_m_result in Hrt as (_ & Hrt & _). apply Hrt.
      intros t l. simpl. by rewrite lookup_empty.
    + intros k Hk. apply Hmono. rewrite lookup_insert. by case_decide.
    + intros k Hk. destruct (Hkeys k Hk) as [Hin|(key & j' & Hin & ->)].
      * rewrite lookup_insert in Hin. case_decide as Hdom; [|by left].
        right. exists dom, j. split; [by left|done].
      * right. exists key, j'. split; [by right|done].
    + intros -> key j' [[= -> ->]|Hin]%elem_of_cons.
      * apply Hmono. by rewrite lookup_insert_eq.
      * by apply (Hall eq_refl key j').
Qed.

(** *** Letter case *)

Lemma swap_case_byte_facts (c : ascii) :
  lower_byte (swap_case_byte c) = lower_byte c ∧
  upper_byte (swap_case_byte c) = upper_byte c ∧
  is_ascii_byte (swap_case_byte c) = is_ascii_byte c.
Proof. destruct c as [[] [] [] [] [] [] [] []]; vm_compute; done. Qed.

(** Strings that differ only in letter case have the same lower-cased and
    upper-cased forms, and are both ASCII or both not. *)
Lemma same_modulo_case_facts (s t : string) :
  same_modulo_case s t = true →
  ascii_lower s = ascii_lower t ∧
  ascii_upper s = ascii_upper t ∧
  is_ascii s = is_ascii t.
Proof.
  revert t. induction s as [|a s IH]; intros [|b t]; simpl; try done.
  intros [Hab Hst]%andb_true_iff.
  destruct (IH t Hst) as (Hl & Hu & Ha).
  unfold ascii_lower, ascii_upper, is_ascii in *. simpl.
  rewrite Hl, Hu, Ha.
  apply orb_true_iff in Hab as [->%Ascii.eqb_eq| <-%Ascii.eqb_eq]; [done|].
  destruct (swap_case_byte_facts a) as (-> & -> & ->). done.
Qed.

Hypothesis ToLower_ascii :
  ∀ s, is_ascii s = true → ToLower s = ascii_lower s.
Hypothesis ToUpper_ascii :
  ∀ s, is_ascii s = true → ToUpper s = ascii_upper s.
(** [dns.Fqdn] returns a name that ends with the root label's dot. *)
Hypothesis Fqdn_dot : ∀ s, HasSuffix (Fqdn s) "." = true.

(** C8. After a load that succeeds, no type key of any record set maps to
    an empty sequence and every stored record is one the RR constructor
    returned, provided this held of the map loaded into (an empty map in
    particular). A type name outside the supported enumeration, in any
    letter case, adds nothing: the load gives what it gives without that
    entry, and so succeeds whenever that one does. *)
Theorem normalization_type_map (d d' : gmap string (records RR))
    (b : JsonError + domainMap)
    (out : list string) :
  (∀ k recs, d !! k = Some recs → well_formed recs) →
  data_UnmarshalJSON (Some d) b = (Some d', None, out) →
  (∀ k recs, d' !! k = Some recs → well_formed recs) ∧
  (∀ d0 dm1 dom m1 typ v m2 dm2,
     ToUpper typ ∉ supported_names →
     data_UnmarshalJSON d0
       (inr (dm1 ++ (dom, inr (m1 ++ (typ, v) :: m2)) :: dm2)) =
     data_UnmarshalJSON d0 (inr (dm1 ++ (dom, inr (m1 ++ m2)) :: dm2))).
Proof.
  intros Hd Hload. split.
  - destruct b as [?|dm]; simpl in Hload; [done|].
    destruct (range_domains dm d) as [[d1 e1] out1] eqn:Hrun.
    injection Hload as <- -> <-.
    apply range_domains_store in Hrun as (Hwf & _). by apply Hwf.
  - intros d0 dm1 dom m1 typ v m2 dm2 Hno.
    apply (data_UnmarshalJSON_exchange_types [(typ, v)] []).
    intros recs. simpl. by rewrite range_v_unsupported.
Qed.

(** C5 as the program has it. A document with a field map of a supported
    type whose record line the RR constructor rejects does not load: the
    call returns the first error met in visiting order. For a rejected
    line that error is the constructor's own, and the line goes to the
    log. The record set of the failing domain is not stored; the store is
    the one the domains visited before it left. [main], which loads into
    an empty map, exits on that error. *)
Theorem normalization_aborts (d : gmap string (records RR))
    (dm : domainMap)
    (dom : string) (m : typeMap) :
  (dom, inr m) ∈ dm →
  rejected_in (Fqdn (ToLower dom)) m →
  ∃ d' err out dm1 dom1 j1 dm2 rt',
    data_UnmarshalJSON (Some d) (inr dm) = (Some d', Some err, out) ∧
    dm = dm1 ++ (dom1, j1) :: dm2 ∧
    range_domains dm1 d = (d', None, []) ∧
    records_UnmarshalJSON (mkRecords (Fqdn (ToLower dom1)) ∅) j1
    = (rt', Some err, out) ∧
    match err with
    | errRR e0 => ∃ line, (NewRR line).2 = Some e0 ∧ out = [attempt_line line]
    | errJson _ => out = []
    | errNilMapUnmarshal => False
    end ∧
    (d = ∅ → main_load (inr dm) = Fatal err).
Proof.
  intros Hin Hrej.
  pose proof (range_domains_rejected dm d dom m Hin Hrej) as [err Herr].
  destruct (range_domains dm d) as [[d' e] out] eqn:Hrun.
  simpl in Herr. subst e.
  pose proof (range_domains_result dm d d' (Some err) out Hrun)
    as (dm1 & dom1 & j1 & dm2 & rt' & -> & Hpre & Hfail).
  exists d', err, out, dm1, dom1, j1, dm2, rt'.
  split; [by simpl; rewrite Hrun|]. split; [done|]. split; [done|].
  split; [done|]. split.
  - destruct j1 as [je|m1]; simpl in Hfail.
    + by injection Hfail as <- <- <-.
    + apply range_m_result in Hfail as (_ & _ & e0 & line & -> & Hnew & ->).
      by exists line.
  - intros ->. unfold main_load. simpl. by rewrite Hrun.
Qed.

(** ** Further properties of the zone normalizer *)

Lemma extended_app (o : option (list RR)) (a b : list RR) :
  extended (extended o a) b = extended o (a ++ b).
Proof.
  destruct a as [|x a]; [done|]. destruct b as [|y b]; simpl.
  - by rewrite app_nil_r.
  - by rewrite <- app_assoc.
Qed.

(** A loop that succeeds logs nothing. *)
Lemma range_v_ok_log typ v (recs recs' : records RR) out :
  range_v typ v recs = (recs', None, out) → out = [].
Proof. intros H. by apply range_v_result in H as (_ & _ & ->). Qed.

(** One step of the inner loop on a supported type, when the loop
    succeeds. *)
Lemma range_v_cons_ok typ r v (recs recs' : records RR) out iType :
  supportedTypes !! ToUpper typ = Some iType →
  range_v typ (r :: v) recs = (recs', None, out) →
  ∃ rr,
    rrFromMap (ToUpper typ) (fqdn recs) r = (rr, None, []) ∧
    range_v (ToUpper typ) v
      (match rr with
       | Some rr0 =>
           mkRecords (fqdn recs)
             (<[iType := default [] (data recs !! iType) ++ [rr0]]>
                (data recs))
       | None => recs
       end) = (recs', None, out).
Proof.
  intros Hty. simpl. rewrite Hty.
  destruct (rrFromMap (ToUpper typ) (fqdn recs) r) as [[rr err] out1] eqn:Hrr.
  pose proof (rrFromMap_result _ _ _ _ _ _ Hrr) as [_ Hout].
  destruct rr as [rr0|], err as [e0|]; cbn; try done; subst out1.
  - destruct (range_v _ v _) as [[recs2 e2] out2] eqn:Hrec.
    intros [= <- -> <-]. by exists (Some rr0).
  - destruct (range_v _ v _) as [[recs2 e2] out2] eqn:Hrec.
    intros [= <- -> <-]. by exists None.
Qed.

Lemma constructed_cons typ fqdn r v :
  constructed typ fqdn (r :: v) =
  match (rrFromMap typ fqdn r).1.1 with
  | Some rr => rr :: constructed typ fqdn v
  | None => constructed typ fqdn v
  end.
Proof. reflexivity. Qed.

(** The type map after an inner loop that succeeds. *)
Lemma range_v_contents typ v (recs recs' : records RR) out :
  range_v typ v recs = (recs', None, out) →
  ∀ t, data recs' !! t =
       if decide (supportedTypes !! ToUpper typ = Some t)
       then extended (data recs !! t) (constructed (ToUpper typ) (fqdn recs) v)
       else data recs !! t.
Proof.
  revert typ recs recs' out.
  induction v as [|r v IH]; intros typ recs recs' out Hrun t.
  - injection Hrun as <- <-. by case_decide.
  - destruct (supportedTypes !! ToUpper typ) as [iType|] eqn:Hty.
    + destruct (range_v_cons_ok typ r v recs recs' out iType Hty Hrun)
        as (rr & Hrr & Hrec).
      apply IH with (t := t) in Hrec. rewrite ToUpper_idemp, Hty in Hrec.
      rewrite constructed_cons, Hrr. simpl.
      destruct rr as [rr0|]; simpl in Hrec; [|done].
      rewrite Hrec. case_decide as Ht.
      * injection Ht as <-. rewrite lookup_insert_eq.
        destruct (constructed (ToUpper typ) (fqdn recs) v); simpl; [done|].
        by rewrite <- app_assoc.
      * rewrite lookup_insert_ne; [done|]. by intros ->.
    + simpl in Hrun. rewrite Hty in Hrun.
      apply IH with (t := t) in Hrun. rewrite ToUpper_idemp, Hty in Hrun.
      rewrite Hrun. by repeat case_decide.
Qed.

Lemma range_m_cons_ok typ v m (recs recs' : records RR) out :
  range_m ((typ, v) :: m) recs = (recs', None, out) →
  ∃ recs1,
    range_v typ v recs = (recs1, None, []) ∧
    range_m m recs1 = (recs', None, out).
Proof.
  simpl. destruct (range_v typ v recs) as [[recs1 [e1|]] out1] eqn:Hv; [done|].
  apply range_v_ok_log in Hv as Hout. subst out1.
  destruct (range_m m recs1) as [[recs2 e2] out2] eqn:Hm.
  intros [= <- -> <-]. by exists recs1.
Qed.

Lemma range_m_contents m (recs recs' : records RR) out :
  range_m m recs = (recs', None, out) →
  ∀ t, data recs' !! t =
       extended (data recs !! t) (contribution (fqdn recs) t m).
Proof.
  revert recs recs' out.
  induction m as [|[typ v] m IH]; intros recs recs' out Hrun t.
  - by injection Hrun as <- <-.
  - apply range_m_cons_ok in Hrun as (recs1 & Hv & Hm).
    pose proof (range_v_result _ _ _ _ _ _ Hv) as (Hfqdn & _).
    rewrite (IH _ _ _ Hm t), (range_v_contents _ _ _ _ _ Hv t), Hfqdn.
    unfold contribution. simpl. case_decide; [|done].
    by rewrite extended_app.
Qed.

(** X1. When [records.UnmarshalJSON] succeeds, the sequence under each
    record type is what was there before followed by the records built
    from the field maps of that type, entry after entry in visiting order
    and in source order within an entry; a type that gets no record gets
    no key. The domain name is kept and nothing is logged. *)
Theorem records_UnmarshalJSON_contents (recs recs' : records RR)
    (m : typeMap) (out : list string) :
  records_UnmarshalJSON recs (inr m) = (recs', None, out) →
  fqdn recs' = fqdn recs ∧ out = [] ∧
  ∀ t, data recs' !! t =
       extended (data recs !! t) (contribution (fqdn recs) t m).
Proof.
  simpl. intros Hrun.
  pose proof (range_m_result _ _ _ _ _ Hrun) as (Hfqdn & _ & Hout).
  split; [done|]. split; [done|]. by apply (range_m_contents m recs recs' out).
Qed.



(** A loop that fails has met a rejected record line. *)
Lemma range_v_fails typ v (recs recs' : records RR) e out :
  range_v typ v recs = (recs', Some e, out) →
  ∃ fm, Some fm ∈ v ∧
        is_Some (supportedTypes !! ToUpper typ) ∧
        is_Some (NewRR (Join (rrFromMap_parts (ToUpper typ) (fqdn recs) fm)
                          " ")).2.
Proof.
  revert typ recs recs' e out.
  induction v as [|r v IH]; intros typ recs recs' e out; simpl; [done|].
  destruct (supportedTypes !! ToUpper typ) as [iType|] eqn:Hty.
  - destruct (rrFromMap (ToUpper typ) (fqdn recs) r) as [[rr err] out1] eqn:Hrr.
    pose proof (rrFromMap_result _ _ _ _ _ _ Hrr) as [_ Herr].
    assert (∀ recs1, fqdn recs1 = fqdn recs →
      range_v (ToUpper typ) v recs1 = (recs', Some e, out) →
      ∃ fm, Some fm ∈ r :: v ∧ is_Some (Some iType) ∧
            is_Some (NewRR (Join (rrFromMap_parts (ToUpper typ) (fqdn recs) fm)
                              " ")).2) as Hrest.
    { intros recs1 Hfqdn Hrec.
      apply IH in Hrec as (fm & Hin & _ & Hrej).
      rewrite ToUpper_idemp, Hfqdn in Hrej.
      exists fm. split; [by right|]. by split. }
    assert (∀ e0, err = Some e0 →
      ∃ fm, Some fm ∈ r :: v ∧ is_Some (Some iType) ∧
            is_Some (NewRR (Join (rrFromMap_parts (ToUpper typ) (fqdn recs) fm)
                              " ")).2) as Hhere.
    { intros e0 ->. destruct Herr as (fm & -> & Hnew & _).
      exists fm. split; [by left|]. split; [done|]. by rewrite Hnew. }
    destruct rr as [rr0|], err as [e0|]; cbn; try (intros _; by eapply Hhere).
    + destruct (range_v _ v _) as [[recs2 e2] out2] eqn:Hrec.
      intros [= <- -> <-]. subst out1. by eapply Hrest in Hrec.
    + destruct (range_v _ v _) as [[recs2 e2] out2] eqn:Hrec.
      intros [= <- -> <-]. subst out1. by eapply Hrest in Hrec.
  - intros Hrec. apply IH in Hrec as (fm & Hin & Hsup & Hrej).
    rewrite ToUpper_idemp, Hty in Hsup. by destruct Hsup.
Qed.

Lemma range_m_fails m (recs recs' : records RR) e out :
  range_m m recs = (recs', Some e, out) → rejected_in (fqdn recs) m.
Proof.
  revert recs recs' e out.
  induction m as [|[typ v] m IH]; intros recs recs' e out; simpl; [done|].
  destruct (range_v typ v recs) as [[recs1 [e1|]] out1] eqn:Hv.
  - intros _. apply range_v_fails in Hv as (fm & Hin & Hsup & Hrej).
    exists typ, v, fm. split; [by left|done].
  - pose proof (range_v_result _ _ _ _ _ _ Hv) as (Hfqdn & _).
    destruct (range_m m recs1) as [[recs2 e2] out2] eqn:Hm.
    intros [= <- -> <-].
    apply IH in Hm as (typ0 & v0 & fm & Hin & Hrest). rewrite Hfqdn in Hrest.
    exists typ0, v0, fm. split; [by right|done].
Qed.

(** [records.UnmarshalJSON] succeeds exactly when it meets no rejected
    record line. *)
Lemma range_m_ok_iff m (recs : records RR) :
  (range_m m recs).1.2 = None ↔ ¬ rejected_in (fqdn recs) m.
Proof.
  split.
  - intros Hok Hrej. apply range_m_rejected in Hrej as [e He]. congruence.
  - intros Hno. destruct (range_m m recs) as [[recs' [e|]] out] eqn:Hrun; [|done].
    destruct Hno. by eapply range_m_fails.
Qed.

Lemma range_domains_undecodable (dm : domainMap) (d : gmap string (records RR))
    (dom : string) (je : JsonError) :
  (dom, inl je) ∈ dm → is_Some (range_domains dm d).1.2.
Proof.
  revert d. induction dm as [|[dom0 j0] dm IH]; intros d Hin.
  - by apply not_elem_of_nil in Hin.
  - simpl. destruct (records_UnmarshalJSON _ j0) as [[rt1 e1] out1] eqn:Hrt.
    destruct e1 as [err1|]; [done|].
    apply elem_of_cons in Hin as [[= <- <-]|Hin]; [done|].
    destruct (range_domains dm _) as [[d2 e2] out2] eqn:Hdm. simpl.
    replace e2 with (range_domains dm (<[Fqdn (ToLower dom0) := rt1]> d)).1.2
      by by rewrite Hdm.
    by apply IH.
Qed.

(** X2. A document loads without error exactly when every domain entry
    decodes and no field map of a supported type yields a record line the
    RR constructor rejects; so whether a load succeeds does not depend on
    the order in which the maps are visited, nor on the map loaded into. *)
Theorem data_UnmarshalJSON_ok_iff (d : gmap string (records RR))
    (dm : domainMap) :
  (data_UnmarshalJSON (Some d) (inr dm)).1.2 = None ↔
  ∀ dom j, (dom, j) ∈ dm →
           ∃ m, j = inr m ∧ ¬ rejected_in (store_key dom) m.
Proof.
  simpl. destruct (range_domains dm d) as [[d' e] out] eqn:Hrun. simpl.
  split.
  - intros -> dom j Hin. destruct j as [je|m].
    + pose proof (range_domains_undecodable dm d dom je Hin) as [e He].
      rewrite Hrun in He. done.
    + exists m. split; [done|]. intros Hrej.
      pose proof (range_domains_rejected dm d dom m Hin Hrej) as [e He].
      rewrite Hrun in He. done.
  - intros Hall. destruct e as [err|]; [|done].
    apply range_domains_result in Hrun
      as (dm1 & dom1 & j1 & dm2 & rt' & -> & _ & Hfail).
    destruct (Hall dom1 j1) as (m & -> & Hno).
    { apply elem_of_app. right. by left. }
    simpl in Hfail. destruct Hno. by apply range_m_fails in Hfail.
Qed.

(** No two supported names stand for the same record type. *)
Lemma supportedTypes_inj (a b : string) (t : Z) :
  supportedTypes !! a = Some t → supportedTypes !! b = Some t → a = b.
Proof.
  unfold supportedTypes.
  intros Ha%elem_of_list_to_map_2 Hb%elem_of_list_to_map_2.
  unfold dns.TypeA, dns.TypeAAAA, dns.TypeCAA, dns.TypeCNAME, dns.TypeMX,
    dns.TypeNS, dns.TypePTR, dns.TypeTXT in *.
  repeat (apply elem_of_cons in Ha as [Ha|Ha]; [simplify_eq|]);
    [..|by apply not_elem_of_nil in Ha];
    repeat (apply elem_of_cons in Hb as [Hb|Hb]; [by simplify_eq|]);
    by apply not_elem_of_nil in Hb.
Qed.

Lemma rejected_in_Permutation fqdn (m m' : typeMap) :
  m ≡ₚ m' → rejected_in fqdn m → rejected_in fqdn m'.
Proof.
  intros Hperm (typ & v & fm & Hin & Hrest).
  exists typ, v, fm. split; [by rewrite <- Hperm|done].
Qed.

(** With distinct upper-cased type names, what a type map adds under a
    record type does not depend on the order of its entries. *)
Lemma contribution_Permutation fqdn t (m m' : typeMap) :
  m ≡ₚ m' → NoDup (ToUpper <$> m.*1) →
  contribution fqdn t m = contribution fqdn t m'.
Proof.
  unfold contribution.
  induction 1 as [|x m m' Hperm IH|x y m|m m' m'' Hperm IH Hperm' IH'];
    intros Hnodup; simpl.
  - done.
  - f_equal. apply IH. by apply NoDup_cons in Hnodup as [_ ?].
  - rewrite !app_assoc. f_equal.
    simpl in Hnodup. apply NoDup_cons in Hnodup as [Hy _].
    apply not_elem_of_cons in Hy as [Hxy _].
    repeat case_decide; simpl; rewrite ?app_nil_r; try done.
    destruct Hxy. by eapply supportedTypes_inj.
  - rewrite IH by done. apply IH'. by rewrite <- Hperm.
Qed.

(** X3. When the upper-cased type names of a domain entry are distinct,
    the record set [records.UnmarshalJSON] builds without error is the same
    in whatever order the type map is visited. *)
Theorem records_UnmarshalJSON_order (recs recs' : records RR)
    (m m' : typeMap) (out : list string) :
  m ≡ₚ m' → NoDup (ToUpper <$> m.*1) →
  records_UnmarshalJSON recs (inr m) = (recs', None, out) →
  records_UnmarshalJSON recs (inr m') = (recs', None, out).
Proof.
  simpl. intros Hperm Hnodup Hrun.
  pose proof (range_m_result _ _ _ _ _ Hrun) as (Hfqdn & _ & ->).
  assert ((range_m m' recs).1.2 = None) as Hok.
  { apply range_m_ok_iff. intros Hrej.
    apply (rejected_in_Permutation _ m' m) in Hrej; [|done].
    apply range_m_rejected in Hrej as [e He]. by rewrite Hrun in He. }
  destruct (range_m m' recs) as [[recs'' e] out'] eqn:Hrun'.
  simpl in Hok. subst e.
  pose proof (range_m_result _ _ _ _ _ Hrun') as (Hfqdn' & _ & ->).
  f_equal. f_equal.
  destruct recs' as [f1 d1], recs'' as [f2 d2]. simpl in *. f_equal.
  - congruence.
  - apply map_eq. intros t.
    pose proof (range_m_contents _ _ _ _ Hrun t) as H1.
    pose proof (range_m_contents _ _ _ _ Hrun' t) as H2. simpl in H1, H2.
    rewrite H1, H2. by rewrite (contribution_Permutation _ t m m').
Qed.

(** One step of the loop over the domains, when the loop succeeds. *)
Lemma range_domains_cons_ok dom j (dm : domainMap)
    (d d' : gmap string (records RR)) out :
  range_domains ((dom, j) :: dm) d = (d', None, out) →
  ∃ rt,
    records_UnmarshalJSON (mkRecords (store_key dom) ∅) j = (rt, None, []) ∧
    range_domains dm (<[store_key dom := rt]> d) = (d', None, out).
Proof.
  simpl. fold (store_key dom).
  destruct (records_UnmarshalJSON _ j) as [[rt [e1|]] out1] eqn:Hrt; [done|].
  assert (out1 = []) as ->.
  { destruct j as [?|m]; simpl in Hrt; [done|].
    by apply range_m_result in Hrt as (_ & _ & ->). }
  destruct (range_domains dm _) as [[d2 e2] out2] eqn:Hdm.
  intros [= <- -> <-]. by exists rt.
Qed.

(** The loop over the domains writes only under the keys of the entries
    it visits. *)
Lemma range_domains_frame (dm : domainMap) (d d' : gmap string (records RR))
    e out k :
  range_domains dm d = (d', e, out) →
  (∀ dom j, (dom, j) ∈ dm → store_key dom ≠ k) →
  d' !! k = d !! k.
Proof.
  revert d d' e out. induction dm as [|[dom j] dm IH]; intros d d' e out; simpl.
  - by intros [= <- <- <-].
  - fold (store_key dom).
    destruct (records_UnmarshalJSON _ j) as [[rt [e1|]] out1] eqn:Hrt.
    { by intros [= <- <- <-]. }
    destruct (range_domains dm _) as [[d2 e2] out2] eqn:Hdm.
    intros [= <- <- <-] Hk.
    rewrite (IH _ _ _ _ Hdm).
    + apply lookup_insert_ne, (Hk dom j). by left.
    + intros dom0 j0 Hin. apply (Hk dom0 j0). by right.
Qed.

(** The loop over the domains keeps "every record set carries its key". *)
Lemma range_domains_fqdn (dm : domainMap) (d d' : gmap string (records RR))
    e out :
  (∀ k recs, d !! k = Some recs → fqdn recs = k) →
  range_domains dm d = (d', e, out) →
  ∀ k recs, d' !! k = Some recs → fqdn recs = k.
Proof.
  revert d d' e out.
  induction dm as [|[dom j] dm IH]; intros d d1 e1 out1 Hd; simpl.
  - by intros [= <- <- <-].
  - destruct (records_UnmarshalJSON _ j) as [[rt [err|]] out2] eqn:Hrt.
    { by intros [= <- <- <-]. }
    destruct (range_domains dm _) as [[d2 e2] out3] eqn:Hdm.
    intros [= <- <- <-]. refine (IH _ _ _ _ _ Hdm).
    intros k recs. rewrite lookup_insert. case_decide as Hk; [|by apply Hd].
    intros [= <-]. destruct j as [?|m]; simpl in Hrt; [done|].
    apply range_m_result in Hrt as (Hfqdn & _). by rewrite Hfqdn.
Qed.

(** X4. Every record set the load stores carries the key it is stored
    under as its domain name, if that held of the map loaded into;
    whether the load ends with an error or not. *)
Theorem data_UnmarshalJSON_fqdn (d d' : gmap string (records RR))
    (b : JsonError + domainMap) (e : option error) (out : list string) :
  (∀ k recs, d !! k = Some recs → fqdn recs = k) →
  data_UnmarshalJSON (Some d) b = (Some d', e, out) →
  ∀ k recs, d' !! k = Some recs → fqdn recs = k.
Proof.
  intros Hd. destruct b as [je|dm]; simpl; [by intros [= <- <- <-]|].
  destruct (range_domains dm d) as [[d1 e1] out1] eqn:Hrun.
  intros [= <- <- <-]. by apply (range_domains_fqdn dm d d1 e1 out1).
Qed.

(** X5. After a load without error, the record set under a key is the
    one built, from an empty record set, for the last visited entry that
    is stored under this key: a later entry replaces an earlier one, it is
    not merged with it. Keys that no entry is stored under are as they
    were. *)
Theorem data_UnmarshalJSON_last_wins (d d' : gmap string (records RR))
    (dm1 dm2 : domainMap) (dom : string) (j : JsonError + typeMap)
    (out : list string) :
  data_UnmarshalJSON (Some d) (inr (dm1 ++ (dom, j) :: dm2))
  = (Some d', None, out) →
  (∀ dom2 j2, (dom2, j2) ∈ dm2 → store_key dom2 ≠ store_key dom) →
  (∃ rt,
     records_UnmarshalJSON (mkRecords (store_key dom) ∅) j = (rt, None, []) ∧
     d' !! store_key dom = Some rt) ∧
  ∀ k, (∀ dom0 j0, (dom0, j0) ∈ dm1 ++ (dom, j) :: dm2 → store_key dom0 ≠ k) →
       d' !! k = d !! k.
Proof.
  simpl.
  destruct (range_domains (dm1 ++ (dom, j) :: dm2) d) as [[d1 e1] out1] eqn:Hrun.
  intros [= <- -> <-] Hlater. split.
  - rewrite range_domains_app in Hrun.
    destruct (range_domains dm1 d) as [[d2 [e2|]] out2] eqn:Hpre; [done|].
    destruct (range_domains ((dom, j) :: dm2) d2) as [[d3 e3] out3] eqn:Hpost.
    injection Hrun as -> -> <-.
    apply range_domains_cons_ok in Hpost as (rt & Hrt & Hrest).
    exists rt. split; [done|].
    rewrite (range_domains_frame _ _ _ _ _ _ Hrest Hlater).
    apply lookup_insert_eq.
  - intros k Hk. by apply (range_domains_frame _ _ _ _ _ _ Hrun).
Qed.

(** The loop over the domains in another order, with distinct keys. *)
Lemma range_domains_Permutation (dm dm' : domainMap) :
  dm ≡ₚ dm' →
  ∀ (d d' : gmap string (records RR)) out,
    NoDup (store_key <$> dm.*1) →
    range_domains dm d = (d', None, out) →
    range_domains dm' d = (d', None, out).
Proof.
  induction 1 as [|[dom j] dm dm' Hperm IH|[dom1 j1] [dom2 j2] dm
                  |dm dm' dm'' Hperm IH Hperm' IH'];
    intros d d' out Hnodup Hrun.
  - done.
  - apply range_domains_cons_ok in Hrun as (rt & Hrt & Hrest).
    simpl in Hnodup. apply NoDup_cons in Hnodup as [_ Hnodup].
    apply (IH _ _ _ Hnodup) in Hrest.
    simpl. fold (store_key dom). by rewrite Hrt, Hrest.
  - apply range_domains_cons_ok in Hrun as (rt1 & Hrt1 & Hrun).
    apply range_domains_cons_ok in Hrun as (rt2 & Hrt2 & Hrest).
    simpl in Hnodup. apply NoDup_cons in Hnodup as [Hne _].
    apply not_elem_of_cons in Hne as [Hne _].
    rewrite insert_insert_ne in Hrest by done.
    simpl. fold (store_key dom1). fold (store_key dom2).
    by rewrite Hrt2, Hrt1, Hrest.
  - apply (IH' d d' out); [by rewrite <- Hperm|]. by apply IH.
Qed.

(** X6. When the keys the domains of a document are stored under are
    distinct, the store a load without error leaves is the same in
    whatever order the domains are visited. *)
Theorem data_UnmarshalJSON_order (d d' : gmap string (records RR))
    (dm dm' : domainMap) (out : list string) :
  dm ≡ₚ dm' → NoDup (store_key <$> dm.*1) →
  data_UnmarshalJSON (Some d) (inr dm) = (Some d', None, out) →
  data_UnmarshalJSON (Some d) (inr dm') = (Some d', None, out).
Proof.
  simpl. intros Hperm Hnodup.
  destruct (range_domains dm d) as [[d1 e1] out1] eqn:Hrun.
  intros [= <- -> <-].
  by rewrite (range_domains_Permutation dm dm' Hperm d d1 out1 Hnodup Hrun).
Qed.

(** ** Further properties of [rrFromMap] *)

Lemma append_assoc (a b c : string) : (a +:+ b) +:+ c = a +:+ b +:+ c.
Proof.
  induction a as [|x a IH]; [done|].
  change (String x ((a +:+ b) +:+ c) = String x (a +:+ b +:+ c)).
  by rewrite IH.
Qed.

(** X7. Every record line starts with an owner name that ends with the
    domain name, then a TTL, [IN] and the type name, and has at most two
    more parts. *)
Theorem rrFromMap_parts_shape (typ fqdn : string) (m : gmap string string) :
  ∃ owner ttl tail,
    rrFromMap_parts typ fqdn m = owner :: ttl :: "IN" :: typ :: tail ∧
    HasSuffix owner fqdn = true ∧
    (length tail ≤ 2)%nat.
Proof.
  assert (HasSuffix fqdn fqdn = true) as Hself.
  { apply HasSuffix_spec. by exists "". }
  unfold rrFromMap_parts.
  destruct (m !! keyHostname) as [v|]; simpl.
  - destruct (String.eqb v "@"); [|destruct (HasSuffix v fqdn) eqn:Hv; simpl].
    + destruct (m !! keyTTL), (String.eqb typ "MX"), (m !! keyPriority),
        (m !! keyValue); simpl; eexists _, _, _;
        (split; [reflexivity|]); (split; [done|]); simpl; lia.
    + destruct (m !! keyTTL), (String.eqb typ "MX"), (m !! keyPriority),
        (m !! keyValue); simpl; eexists _, _, _;
        (split; [reflexivity|]); (split; [done|]); simpl; lia.
    + assert (HasSuffix (v +:+ "." +:+ fqdn) fqdn = true) as Hext.
      { apply HasSuffix_spec. exists (v +:+ ".").
        exact (eq_sym (append_assoc v "." fqdn)). }
      destruct (m !! keyTTL), (String.eqb typ "MX"), (m !! keyPriority),
        (m !! keyValue); simpl; eexists _, _, _;
        (split; [reflexivity|]); (split; [done|]); simpl; lia.
  - destruct (m !! keyTTL), (String.eqb typ "MX"), (m !! keyPriority),
      (m !! keyValue); simpl; eexists _, _, _;
      (split; [reflexivity|]); (split; [done|]); simpl; lia.
Qed.

(** X8. [rrFromMap] reads four fields only: a field under any other name
    changes neither the record, nor the error, nor the log. *)
Theorem rrFromMap_other_fields (typ fqdn k x : string)
    (m : gmap string string) :
  k ∉ [keyHostname; keyTTL; keyPriority; keyValue] →
  rrFromMap typ fqdn (Some (<[k := x]> m)) = rrFromMap typ fqdn (Some m).
Proof.
  intros Hk.
  assert (k ≠ keyHostname ∧ k ≠ keyTTL ∧ k ≠ keyPriority ∧ k ≠ keyValue)
    as (H1 & H2 & H3 & H4).
  { rewrite !not_elem_of_cons in Hk. by destruct Hk as (? & ? & ? & ? & _). }
  unfold rrFromMap, rrFromMap_parts.
  by rewrite !lookup_insert_ne by done.
Qed.

(** ** Further properties of the query resolver *)

Lemma append_Answer_nil (m : dns.Msg RR) : dns.append_Answer m [] = m.
Proof. destruct m. unfold dns.append_Answer. simpl. by rewrite app_nil_r. Qed.

Lemma append_Answer_app (m : dns.Msg RR) (a b : list RR) :
  dns.append_Answer (dns.append_Answer m a) b = dns.append_Answer m (a ++ b).
Proof. unfold dns.append_Answer. simpl. by rewrite app_assoc. Qed.

Lemma range_data_eq (ord : list (Z * list RR)) (m : dns.Msg RR) :
  range_data ord m = dns.append_Answer m (concat ord.*2).
Proof.
  revert m. induction ord as [|[t rrs] ord IH]; intros m; simpl.
  - by rewrite append_Answer_nil.
  - by rewrite IH, append_Answer_app.
Qed.

(** What the loop over the questions appends for question number [j]. *)
Lemma range_Question_eq recs visit i qs (m : dns.Msg RR) :
  range_Question recs visit i qs m =
  dns.append_Answer m
    (concat (imap (λ j q,
               if dns.Qtype q =? dns.TypeANY then concat (visit (i + j)%nat).*2
               else default [] (data recs !! dns.Qtype q)) qs)).
Proof.
  revert i m. induction qs as [|q qs IH]; intros i m; simpl.
  - by rewrite append_Answer_nil.
  - rewrite IH, Nat.add_0_r.
    rewrite (imap_ext _ (λ j q0,
      if dns.Qtype q0 =? dns.TypeANY then concat (visit (i + S j)%nat).*2
      else default [] (data recs !! dns.Qtype q0))); last first.
    { intros j q0 _. simpl. by rewrite Nat.add_succ_r. }
    destruct (dns.Qtype q =? dns.TypeANY).
    + by rewrite range_data_eq, append_Answer_app.
    + destruct (data recs !! dns.Qtype q); simpl;
        by rewrite ?append_Answer_nil, ?append_Answer_app.
Qed.

Lemma concat_imap_Permutation {A B : Type} (f g : nat → A → list B)
    (l : list A) :
  (∀ j x, l !! j = Some x → f j x ≡ₚ g j x) →
  concat (imap f l) ≡ₚ concat (imap g l).
Proof.
  revert f g. induction l as [|x l IH]; intros f g Hfg; simpl; [done|].
  rewrite (Hfg 0%nat x eq_refl). f_equiv.
  apply IH. intros j y Hj. by apply (Hfg (S j)).
Qed.

Lemma concat_imap_typed recs (visit : nat → list (Z * list RR)) i
    (qs : list dns.Question) :
  (∀ q, q ∈ qs → dns.Qtype q ≠ dns.TypeANY) →
  concat (imap (λ j q,
            if dns.Qtype q =? dns.TypeANY then concat (visit (i + j)%nat).*2
            else default [] (data recs !! dns.Qtype q)) qs)
  = concat ((λ q, default [] (data recs !! dns.Qtype q)) <$> qs).
Proof.
  revert i. induction qs as [|q qs IH]; intros i Hqs; simpl; [done|].
  assert ((dns.Qtype q =? dns.TypeANY) = false) as ->.
  { apply Z.eqb_neq, Hqs. by left. }
  f_equal.
  rewrite (imap_ext _ (λ j q0,
    if dns.Qtype q0 =? dns.TypeANY then concat (visit (S i + j)%nat).*2
    else default [] (data recs !! dns.Qtype q0))); last first.
  { intros j q0 _. simpl. by rewrite Nat.add_succ_r. }
  apply IH. intros q0 Hq0. apply Hqs. by right.
Qed.

(** X9. The order in which the type map is visited shows at most in the
    order of the answer section: two replies to the same request agree on
    every other field and their answer sections hold the same records.
    When no question asks for ANY the reply is the same whatever the
    orders are. *)
Theorem handler_visiting_order (recs : records RR)
    (visit1 visit2 : nat → list (Z * list RR)) (r : dns.Msg RR) :
  (∀ i, visit1 i ≡ₚ map_to_list (data recs)) →
  (∀ i, visit2 i ≡ₚ map_to_list (data recs)) →
  same_but_answer_order
    (handler_reply recs visit1 r) (handler_reply recs visit2 r) ∧
  ((∀ q, q ∈ dns.Question_ r → dns.Qtype q ≠ dns.TypeANY) →
   handler_reply recs visit1 r = handler_reply recs visit2 r).
Proof.
  intros H1 H2. unfold handler_reply. cbv zeta.
  rewrite !range_Question_eq. split.
  - assert (concat (imap (λ j q,
              if dns.Qtype q =? dns.TypeANY
              then concat (visit1 (0 + j)%nat).*2
              else default [] (data recs !! dns.Qtype q)) (dns.Question_ r))
            ≡ₚ
            concat (imap (λ j q,
              if dns.Qtype q =? dns.TypeANY
              then concat (visit2 (0 + j)%nat).*2
              else default [] (data recs !! dns.Qtype q)) (dns.Question_ r)))
      as Hperm.
    { apply concat_imap_Permutation. intros j q _.
      destruct (dns.Qtype q =? dns.TypeANY); [|done].
      apply concat_Permutation. by rewrite H1, H2. }
    unfold same_but_answer_order.
    destruct (data recs !! dns.TypeNS), (data recs !! dns.TypeA),
      (data recs !! dns.TypeAAAA); simpl; repeat split; by rewrite ?Hperm.
  - intros Hqs. by rewrite !concat_imap_typed.
Qed.

Lemma default_extended_None (built : list RR) :
  default [] (extended None built) = built.
Proof. by destruct built. Qed.

(** X10. Load, then query. After a load without error, the record set
    under the key of a domain entry that no later entry replaces answers a
    request with no ANY question by, for each question in turn, the
    records built from the field maps of the type asked for, in document
    order; its authority section holds those built for NS and its
    additional section those built for A, then those built for AAAA. *)
Theorem load_then_query (d d' : gmap string (records RR))
    (dm1 dm2 : domainMap) (dom : string) (m : typeMap) (out : list string) :
  data_UnmarshalJSON (Some d) (inr (dm1 ++ (dom, inr m) :: dm2))
  = (Some d', None, out) →
  (∀ dom2 j2, (dom2, j2) ∈ dm2 → store_key dom2 ≠ store_key dom) →
  ∃ recs,
    d' !! store_key dom = Some recs ∧
    ∀ visit r,
      (∀ q, q ∈ dns.Question_ r → dns.Qtype q ≠ dns.TypeANY) →
      dns.Answer (handler_reply recs visit r) =
        concat ((λ q, contribution (store_key dom) (dns.Qtype q) m)
                <$> dns.Question_ r) ∧
      dns.Ns (handler_reply recs visit r) =
        contribution (store_key dom) dns.TypeNS m ∧
      dns.Extra (handler_reply recs visit r) =
        contribution (store_key dom) dns.TypeA m ++
        contribution (store_key dom) dns.TypeAAAA m.
Proof.
  simpl.
  destruct (range_domains (dm1 ++ (dom, inr m) :: dm2) d)
    as [[d1 e1] out1] eqn:Hrun.
  intros [= <- -> <-] Hlater.
  rewrite range_domains_app in Hrun.
  destruct (range_domains dm1 d) as [[d2 [e2|]] out2] eqn:Hpre; [done|].
  destruct (range_domains ((dom, inr m) :: dm2) d2)
    as [[d3 e3] out3] eqn:Hpost.
  injection Hrun as -> -> <-.
  apply range_domains_cons_ok in Hpost as (rt & Hrt & Hrest).
  exists rt. split.
  { rewrite (range_domains_frame _ _ _ _ _ _ Hrest Hlater).
    apply lookup_insert_eq. }
  simpl in Hrt.
  assert (∀ t, default [] (data rt !! t) = contribution (store_key dom) t m)
    as Hdata.
  { intros t. rewrite (range_m_contents _ _ _ _ Hrt t). simpl.
    rewrite lookup_empty. apply default_extended_None. }
  intros visit r Hqs. unfold handler_reply. cbv zeta.
  rewrite range_Question_eq, concat_imap_typed by done.
  pose proof (Hdata dns.TypeNS) as HNS.
  pose proof (Hdata dns.TypeA) as HA.
  pose proof (Hdata dns.TypeAAAA) as HAAAA.
  assert ((λ q, default [] (data rt !! dns.Qtype q)) <$> dns.Question_ r
          = (λ q, contribution (store_key dom) (dns.Qtype q) m)
            <$> dns.Question_ r) as ->.
  { apply list_fmap_ext. intros ? q _. apply Hdata. }
  destruct (data rt !! dns.TypeNS), (data rt !! dns.TypeA),
    (data rt !! dns.TypeAAAA); simpl in *;
    rewrite ?SetReply_Answer, ?SetReply_Ns, ?SetReply_Extra; simpl;
    rewrite <- ?HNS, <- ?HA, <- ?HAAAA, ?app_nil_r; done.
Qed.

(** ** Further properties of the proxy forwarder *)

(** The loop over the servers ends in one of two ways. *)
Lemma range_Servers_cases (servers : list string) (r : dns.Msg RR)
    (w : World) (m : option (dns.Msg RR)) (err : option proxy_error) :
  err ≠ None →
  (∃ m' e,
     range_Servers servers r w m err =
     (m', Some e, world_after (address <$> servers) r w, address <$> servers)) ∨
  (∃ n ns m0 w',
     servers !! n = Some ns ∧
     (∀ i ns', (i < n)%nat → servers !! i = Some ns' →
        (Exchange (world_after (address <$> take i servers) r w) r
           (address ns')).1.2 ≠ None) ∧
     Exchange (world_after (address <$> take n servers) r w) r (address ns)
     = (m0, None, w') ∧
     range_Servers servers r w m err =
     (m0, None, w', address <$> take (S n) servers)).
Proof.
  revert w m err. induction servers as [|ns servers IH]; intros w m err He.
  - left. destruct err as [e|]; [|done]. by exists m, e.
  - rewrite range_Servers_cons.
    destruct (Exchange w r (address ns)) as [[m1 [e1|]] w1] eqn:Hex.
    + destruct (IH w1 m1 (Some (errExchange e1))) as
        [(m' & e & Hrun)|(n & ns' & m0 & w' & Hn & Hbefore & Hok & Hrun)];
        [done| |].
      * left. exists m', e. rewrite Hrun. simpl. by rewrite Hex.
      * right. exists (S n), ns', m0, w'. split; [done|]. split; [|split].
        -- intros [|i] ns0 Hi Hs; simpl in *.
           ++ injection Hs as <-. by rewrite Hex.
           ++ rewrite Hex. simpl. apply Hbefore; [lia|done].
        -- simpl. by rewrite Hex.
        -- by rewrite Hrun.
    + right. exists 0%nat, ns, m1, w1. split; [done|]. split; [|done].
      intros i ns' Hi. lia.
Qed.

(** X11. Every run of [proxyHandler] is a relay or a failure. A relay,
    possible only with forwarding on, exchanges with the first servers up
    to the first one that answers, writes that answer and leaves the
    request alone. A failure writes a response with the server-failure
    status and sets that status, and nothing else, on the request; it has
    exchanged with every server, in order, when forwarding is on, and with
    none, leaving the network alone, when it is off. *)
Theorem proxyHandler_cases (r : dns.Msg RR) (w : World) :
  (proxy = true ∧
   ∃ n ns m0 w',
     Servers !! n = Some ns ∧
     (∀ i ns', (i < n)%nat → Servers !! i = Some ns' →
               (exchange_nr i ns' r w).1.2 ≠ None) ∧
     exchange_nr n ns r w = (m0, None, w') ∧
     proxyHandler r w = mkEffects m0 r w' (address <$> take (S n) Servers)) ∨
  (∃ m,
     dns.Rcode m = dns.RcodeServerFailure ∧
     proxyHandler r w =
     mkEffects (Some m) (dns.set_Rcode r dns.RcodeServerFailure)
       (if proxy then world_after (address <$> Servers) r w else w)
       (if proxy then address <$> Servers else [])).
Proof.
  unfold proxyHandler. destruct proxy.
  - destruct (range_Servers_cases Servers r w None (Some errNotProxied))
      as [(m' & e & ->)|(n & ns & m0 & w' & Hn & Hbefore & Hok & ->)]; [done| |].
    + right. eexists. split; [apply SetRcode_Rcode|reflexivity].
    + left. split; [done|]. by exists n, ns, m0, w'.
  - right. eexists. split; [apply SetRcode_Rcode|reflexivity].
Qed.

(** X12. The logger reads the request, not the reply: a relayed query
    whose request came in with status 0 is logged as a success whatever
    status the upstream answer carries. *)
Theorem relayed_reply_logged_as_success (r : dns.Msg RR) (w : World)
    (n : nat) (ns : string) (m0 : option (dns.Msg RR)) (w' : World) :
  proxy = true →
  Servers !! n = Some ns →
  (∀ i ns', (i < n)%nat → Servers !! i = Some ns' →
            (exchange_nr i ns' r w).1.2 ≠ None) →
  exchange_nr n ns r w = (m0, None, w') →
  dns.Rcode r = 0 →
  written (serve_root r w).1 = m0 ∧
  (serve_root r w).2 =
    if verbose then
      map (λ q, mkLine cProxied cSuccess (TrimLeft (Question_String q) ";"))
          (dns.Question_ r)
    else [].
Proof.
  intros Hproxy Hn Hbefore Hok Hr. unfold serve_root, logRequest, proxyHandler.
  rewrite Hproxy.
  rewrite (range_Servers_first_success Servers r w None
             (Some errNotProxied) n ns m0 w' Hn Hbefore Hok).
  simpl. by rewrite Hr.
Qed.

(** ** [main] *)

(** X13. When [main] of either entry point reaches the listeners, a data
    file was named, read and loaded without error into an empty map; every
    key of the store ends with a dot, and every record set carries its key
    and has no empty sequence. In the proxying entry point with forwarding
    on, the resolver configuration was read and names at least one server;
    with forwarding off, and in the other entry point, there is no client
    configuration. *)
Theorem main_listening (clientConfig : option (list string * string))
    (d : gmap string (records RR)) :
  (main_startup = Listening clientConfig d →
   loaded_from_file d ∧
   if proxy then
     ∃ servers port,
       clientConfig = Some (servers, port) ∧
       ClientConfigFromFile resolvConfFile = inr (servers, port) ∧
       servers ≠ []
   else clientConfig = None) ∧
  (main_noproxy_startup = Listening clientConfig d →
   loaded_from_file d ∧ clientConfig = None).
Proof.
  assert (∀ b, dataFile ≠ "" → ReadFile dataFile = inr b →
               main_load b = Loaded d → loaded_from_file d) as Hload.
  { intros [je|dm] Hfile Hread; unfold main_load; simpl; [done|].
    destruct (range_domains dm ∅) as [[d1 [e1|]] out1] eqn:Hrun; [done|].
    intros [= <-]. split; [done|]. exists dm. split; [done|].
    pose proof (range_domains_result _ _ _ _ _ Hrun) as ->.
    split; [by simpl; rewrite Hrun|]. intros k recs Hk.
    pose proof (range_domains_store _ _ _ _ _ Hrun) as (Hwf & _ & Hkeys & _).
    split; [|split].
    - destruct (Hkeys k) as [Hin|(key & j & _ & ->)]; [by eexists| |].
      + rewrite lookup_empty in Hin. by destruct Hin.
      + apply Fqdn_dot.
    - apply (range_domains_fqdn dm ∅ d1 None []); [|done|done].
      intros k0 recs0. by rewrite lookup_empty.
    - apply (Hwf ltac:(by intros k0 recs0; rewrite lookup_empty) k recs Hk). }
  split.
  - unfold main_startup.
    destruct (String.eqb_spec dataFile "") as [|Hfile]; [done|].
    destruct proxy.
    + destruct (ClientConfigFromFile resolvConfFile) as [cerr|[servers port]];
        [done|]. simpl.
      destruct servers as [|ns servers]; [done|]. simpl.
      destruct (ReadFile dataFile) as [rerr|b] eqn:Hread; [done|].
      destruct (main_load b) as [err|d0] eqn:Hb; [done|].
      intros [= <- <-]. split; [by apply (Hload b)|]. by eexists _, _.
    + destruct (ReadFile dataFile) as [rerr|b] eqn:Hread; [done|].
      destruct (main_load b) as [err|d0] eqn:Hb; [done|].
      intros [= <- <-]. split; [by apply (Hload b)|done].
  - unfold main_noproxy_startup.
    destruct (String.eqb_spec dataFile "") as [|Hfile]; [done|].
    destruct (ReadFile dataFile) as [rerr|b] eqn:Hread; [done|].
    destruct (main_load b) as [err|d0] eqn:Hb; [done|].
    intros [= <- <-]. split; [by apply (Hload b)|done].
Qed.

(** X14. In a server that [main] started with forwarding on, with the
    client configuration [proxyHandler] reads, every forwarded query is
    exchanged with at least one upstream server, the first configured one
    first. *)
Theorem started_proxy_exchanges (d : gmap string (records RR))
    (r : dns.Msg RR) (w : World) :
  main_startup = Listening (Some (Servers, Port)) d →
  proxy = true →
  ∃ ns rest,
    Servers !! 0%nat = Some ns ∧
    exchanged (proxyHandler r w) = address ns :: rest.
Proof.
  intros Hmain Hproxy. unfold main_startup in Hmain. rewrite Hproxy in Hmain.
  destruct (String.eqb dataFile ""); [done|].
  destruct (ClientConfigFromFile resolvConfFile) as [cerr|[servers port]];
    [done|]. simpl in Hmain.
  destruct servers as [|ns servers]; [done|]. simpl in Hmain.
  destruct (ReadFile dataFile) as [rerr|b]; [done|].
  destruct (main_load b) as [err|d0]; [done|].
  injection Hmain as HS HP Hd.
  unfold proxyHandler. rewrite Hproxy, <- HS, range_Servers_cons.
  destruct (Exchange w r (address ns)) as [[m1 [e1|]] w1].
  - destruct (range_Servers servers r w1 m1 _) as [[[m2 [e2|]] w2] calls];
      by eexists _, _.
  - by eexists _, _.
Qed.
(** ** Letter case of the keys *)

(** Respelling the type names entry by entry, in the same order. *)
Lemma range_m_same_type_names (m m0 : typeMap) :
  Forall2 (λ e e0 : string * list (option fieldMap),
             same_type_name e.1 e0.1 ∧ e.2 = e0.2) m m0 →
  ∀ recs : records RR, range_m m recs = range_m m0 recs.
Proof.
  induction 1 as [|[typ v] [typ0 v0] m m0 [Ht Hv] _ IH]; intros recs; [done|].
  simpl in Ht, Hv. subst v0. simpl.
  rewrite (range_v_ToUpper typ typ0 v recs Ht).
  destruct (range_v typ0 v recs) as [[recs1 [e|]] out1]; [done|].
  by rewrite IH.
Qed.

Lemma same_type_names_upper (m m0 : typeMap) :
  Forall2 (λ e e0 : string * list (option fieldMap),
             same_type_name e.1 e0.1 ∧ e.2 = e0.2) m m0 →
  ToUpper <$> m.*1 = ToUpper <$> m0.*1.
Proof.
  induction 1 as [|[typ v] [typ0 v0] m m0 [Ht _] _ IH]; [done|].
  unfold same_type_name in Ht. simpl in Ht.
  rewrite !fmap_cons. simpl. by rewrite Ht, IH.
Qed.

(** The loop over the type names in another order, with distinct
    upper-cased names. *)
Lemma range_m_Permutation (m m' : typeMap) (recs recs' : records RR)
    (out : list string) :
  m ≡ₚ m' → NoDup (ToUpper <$> m.*1) →
  range_m m recs = (recs', None, out) →
  range_m m' recs = (recs', None, out).
Proof.
  intros Hperm Hnodup Hrun.
  pose proof (range_m_result _ _ _ _ _ Hrun) as (Hfqdn & _ & ->).
  assert ((range_m m' recs).1.2 = None) as Hok.
  { apply range_m_ok_iff. intros Hrej.
    apply (rejected_in_Permutation _ m' m) in Hrej; [|done].
    apply range_m_rejected in Hrej as [e He]. by rewrite Hrun in He. }
  destruct (range_m m' recs) as [[recs'' e] out'] eqn:Hrun'.
  simpl in Hok. subst e.
  pose proof (range_m_result _ _ _ _ _ Hrun') as (Hfqdn' & _ & ->).
  f_equal. f_equal.
  destruct recs' as [f1 d1], recs'' as [f2 d2]. simpl in *. f_equal.
  - congruence.
  - apply map_eq. intros t.
    pose proof (range_m_contents _ _ _ _ Hrun t) as H1.
    pose proof (range_m_contents _ _ _ _ Hrun' t) as H2. simpl in H1, H2.
    rewrite H1, H2. by rewrite (contribution_Permutation _ t m m').
Qed.

Lemma range_m_respelled (m m' : typeMap) (recs recs' : records RR)
    (out : list string) :
  respelled_types m m' → NoDup (ToUpper <$> m.*1) →
  range_m m recs = (recs', None, out) →
  range_m m' recs = (recs', None, out).
Proof.
  intros (m0 & Hnames & Hperm) Hnodup Hrun.
  apply (range_m_Permutation m0 m'); [done|..].
  - by rewrite <- (same_type_names_upper m m0).
  - by rewrite <- (range_m_same_type_names m m0).
Qed.

(** Respelling the domain keys entry by entry, in the same order, each
    type map respelled and visited in an order of its own. *)
Lemma range_domains_same_keys (dm dm0 : domainMap) :
  Forall2 (λ e e0 : string * (JsonError + typeMap),
             same_key e.1 e0.1 ∧ respelled_entry e.2 e0.2) dm dm0 →
  (∀ dom m, (dom, inr m) ∈ dm → NoDup (ToUpper <$> m.*1)) →
  ∀ (d d' : gmap string (records RR)) out,
    range_domains dm d = (d', None, out) →
    range_domains dm0 d = (d', None, out).
Proof.
  induction 1 as [|[dom j] [dom0 j0] dm dm0 [Hk Hj] _ IH];
    intros Hnodup d d' out Hrun; [done|].
  simpl in Hk, Hj.
  apply range_domains_cons_ok in Hrun as (rt & Hrt & Hrest).
  destruct j as [je|m]; [done|].
  destruct j0 as [je0|m0]; [done|]. simpl in Hj, Hrt.
  assert (store_key dom0 = store_key dom) as Hkey.
  { unfold store_key. by rewrite Hk. }
  apply (range_m_respelled m m0) in Hrt;
    [|done|apply (Hnodup dom); by left].
  apply IH in Hrest; [|intros dom1 m1 Hin; apply (Hnodup dom1); by right].
  simpl. fold (store_key dom0). by rewrite Hkey, Hrt, Hrest.
Qed.

Lemma same_keys_store_key (dm dm0 : domainMap) :
  Forall2 (λ e e0 : string * (JsonError + typeMap),
             same_key e.1 e0.1 ∧ respelled_entry e.2 e0.2) dm dm0 →
  store_key <$> dm.*1 = store_key <$> dm0.*1.
Proof.
  induction 1 as [|[dom j] [dom0 j0] dm dm0 [Hk _] _ IH]; [done|].
  unfold same_key in Hk. simpl in Hk.
  rewrite !fmap_cons. simpl. unfold store_key at 1 3. by rewrite Hk, IH.
Qed.


End mockdns.

(** ** The program on the sample collaborators *)

Import strings.

Lemma ascii_upper_idemp (s : string) : ascii_upper (ascii_upper s) = ascii_upper s.
Proof.
  induction s as [|c s IH]; [done|].
  unfold ascii_upper in *. simpl. rewrite IH. f_equal.
  destruct c as [[] [] [] [] [] [] [] []]; vm_compute; done.
Qed.

Lemma sample_Fqdn_dot (s : string) : HasSuffix (sample.Fqdn s) "." = true.
Proof.
  unfold sample.Fqdn. destruct (HasSuffix s ".") eqn:Hs; [done|].
  apply HasSuffix_spec. by exists s.
Qed.

(** Record lines of three field maps. *)
Example line_of_mx_record :
  Join (rrFromMap_parts sample.Quote "3600" "MX" "a.test." sample.mx_record) " "
  = "a.test. 300 IN MX 10 mail.a.test.".
Proof. vm_compute. reflexivity. Qed.

Example line_of_www_record :
  Join (rrFromMap_parts sample.Quote "3600" "A" "a.test." sample.www_record) " "
  = "www.a.test. 3600 IN A 192.0.2.1".
Proof. vm_compute. reflexivity. Qed.

Example line_of_txt_record :
  Join (rrFromMap_parts sample.Quote "3600" "TXT" "a.test."
          (sample.value_only "v=spf1 -all")) " "
  = "a.test. 3600 IN TXT " +:+ sample.Quote "v=spf1 -all".
Proof. vm_compute. reflexivity. Qed.

(** A nil field map gives neither a record nor an error. *)
Example rrFromMap_nil :
  rrFromMap sample.NewRR sample.Quote "3600" "A" "test.com." None
  = (None, None, []).
Proof. reflexivity. Qed.

(** The document with mixed letter case, a null field map and an
    unsupported type loads into one record set. *)
Example load_mixed_case :
  data_UnmarshalJSON sample.NewRR sample.Fqdn sample.Quote
    ascii_upper ascii_lower "3600" (Some ∅) (inr sample.mixed_case)
  = (Some {[ "a.test." :=
             mkRecords "a.test."
               {[ dns.TypeNS := ["a.test. 3600 IN NS ns1.test."];
                  dns.TypeA := ["a.test. 3600 IN A 192.0.2.1"] ]} ]},
     None, []).
Proof. vm_compute. reflexivity. Qed.

(** Unmarshalling into a nil map. *)
Example load_into_nil :
  data_UnmarshalJSON sample.NewRR sample.Fqdn sample.Quote
    ascii_upper ascii_lower "3600" None
    (inr [("test.com.", inr [])] : string + _)
  = (None, Some errNilMapUnmarshal, []).
Proof. reflexivity. Qed.

(** The reply to the two-question query. *)
Example reply_to_any_query :
  handler_reply sample.SetReply sample.a_test sample.visit sample.any_query
  = dns.mkMsg 7 true 0 0 [dns.mkQuestion "a.test." dns.TypeANY 1]
      (concat (map_to_list (data sample.a_test)).*2)
      ["a.test. 3600 IN NS ns1.test."]
      ["a.test. 3600 IN A 192.0.2.1"; "a.test. 3600 IN A 192.0.2.2"].
Proof. vm_compute. reflexivity. Qed.

(** The forwarder on the servers that do not answer, and its log line. *)
Example forward_to_dead_servers :
  serve_root true true sample.dead_Servers "53" sample.SetRcode
    sample.Exchange sample.Question_String (sample.query dns.TypeA) 0%nat
  = (mkEffects
       (Some (dns.mkMsg 7 true 0 dns.RcodeServerFailure
                [dns.mkQuestion "a.test." dns.TypeA 1] [] [] []))
       (dns.mkMsg 7 false 0 dns.RcodeServerFailure
          [dns.mkQuestion "a.test." dns.TypeA 1] [] [] [])
       2%nat ["198.51.100.1:53"; "203.0.113.9:53"],
     [mkLine cProxied cFailure "a.test."]).
Proof. vm_compute. reflexivity. Qed.

(** With forwarding off nothing is exchanged and the line is terminal. *)
Example forward_disabled :
  serve_root false true sample.Servers "53" sample.SetRcode
    sample.Exchange sample.Question_String (sample.query dns.TypeA) 0%nat
  = (mkEffects
       (Some (dns.mkMsg 7 true 0 dns.RcodeServerFailure
                [dns.mkQuestion "a.test." dns.TypeA 1] [] [] []))
       (dns.mkMsg 7 false 0 dns.RcodeServerFailure
          [dns.mkQuestion "a.test." dns.TypeA 1] [] [] [])
       0%nat [],
     [mkLine cTerminal cFailure "a.test."]).
Proof. vm_compute. reflexivity. Qed.

(** *** Instances of the theorems *)

(** The two-question query against [a.test.], the type map visited in
    one order for the first question and in the reverse order for the
    second. *)
Lemma handler_answer_section_witness :
  ∃ m blocks,
    written (handler sample.SetReply sample.a_test sample.visit
               sample.any_query 0%nat) = Some m ∧
    written (handler_noproxy sample.SetReply sample.GoSyntax sample.a_test
               sample.visit sample.any_query 0%nat).1 = Some m ∧
    dns.Rcode m = dns.RcodeSuccess ∧
    dns.Answer m = concat blocks ∧
    Forall2 (answers sample.a_test) (dns.Question_ sample.any_query) blocks.
Proof.
  apply (handler_answer_section sample.SetReply sample.GoSyntax).
  - intros m r. reflexivity.
  - intros m r. reflexivity.
  - intros i. unfold sample.visit. destruct (Nat.even i).
    + reflexivity.
    + apply reverse_Permutation.
Defined.

(** A TXT query against [a.test.], which stores no TXT and no AAAA record. *)
Lemma handler_authority_additional_witness :
  ∃ m,
    written (handler sample.SetReply sample.a_test sample.visit
               (sample.query dns.TypeTXT) 0%nat) = Some m ∧
    dns.Ns m = default [] (data sample.a_test !! dns.TypeNS) ∧
    dns.Extra m =
      default [] (data sample.a_test !! dns.TypeA) ++
      default [] (data sample.a_test !! dns.TypeAAAA).
Proof.
  apply (handler_authority_additional sample.SetReply).
  - intros m r. reflexivity.
  - intros m r. reflexivity.
Defined.

(** The two-question query, logged. *)
Lemma handler_leaves_request_witness :
  request (handler sample.SetReply sample.a_test sample.visit
             sample.any_query 0%nat) = sample.any_query ∧
  request (serve_domain true true sample.SetReply sample.Question_String
             sample.a_test sample.visit sample.any_query 0%nat).1
  = sample.any_query ∧
  dns.Rcode
    (request (serve_domain true true sample.SetReply sample.Question_String
                sample.a_test sample.visit sample.any_query 0%nat).1) = 0 ∧
  (serve_domain true true sample.SetReply sample.Question_String
     sample.a_test sample.visit sample.any_query 0%nat).2
  = map (λ q, mkLine cOverride cSuccess
                (TrimLeft (sample.Question_String q) ";"))
      (dns.Question_ sample.any_query).
Proof.
  apply (handler_leaves_request true true sample.SetReply
           sample.Question_String sample.a_test sample.visit
           sample.any_query 0%nat).
  reflexivity.
Defined.

(** Three upstream servers, the second of which answers. *)
Lemma proxyHandler_first_success_witness :
  proxyHandler true sample.Servers "53" sample.SetRcode sample.Exchange
    (sample.query dns.TypeA) 0%nat
  = mkEffects (Some sample.upstream_reply) (sample.query dns.TypeA) 2%nat
      (address "53" <$> take 2 sample.Servers).
Proof.
  apply (proxyHandler_first_success true sample.Servers "53" sample.SetRcode
           sample.Exchange (sample.query dns.TypeA) 0%nat 1%nat "192.0.2.53").
  - reflexivity.
  - reflexivity.
  - intros i ns' Hi Hs. destruct i as [|i]; [|lia].
    injection Hs as <-. vm_compute. discriminate.
  - vm_compute. reflexivity.
Defined.

(** Two upstream servers, neither of which answers. *)
Lemma proxyHandler_server_failure_witness :
  ∃ m,
    written (proxyHandler true sample.dead_Servers "53" sample.SetRcode
               sample.Exchange (sample.query dns.TypeA) 0%nat) = Some m ∧
    dns.Rcode m = dns.RcodeServerFailure ∧
    request (proxyHandler true sample.dead_Servers "53" sample.SetRcode
               sample.Exchange (sample.query dns.TypeA) 0%nat)
    = dns.set_Rcode (sample.query dns.TypeA) dns.RcodeServerFailure ∧
    dns.Rcode
      (request (proxyHandler true sample.dead_Servers "53" sample.SetRcode
                  sample.Exchange (sample.query dns.TypeA) 0%nat))
    = dns.RcodeServerFailure ∧
    ∀ l, l ∈ (serve_root true true sample.dead_Servers "53" sample.SetRcode
                sample.Exchange sample.Question_String
                (sample.query dns.TypeA) 0%nat).2 →
         line_res l = cFailure.
Proof.
  apply (proxyHandler_server_failure true true sample.dead_Servers "53"
           sample.SetRcode sample.Exchange sample.Question_String).
  - intros m r rcode. reflexivity.
  - right. right. intros i ns Hs.
    destruct i as [|[|i]]; simpl in Hs; [| |discriminate];
      injection Hs as <-; vm_compute; discriminate.
Defined.


(** The load of the mixed-case document into an empty map. *)
Lemma normalization_type_map_witness :
  (∀ k recs,
     ({[ "a.test." :=
         mkRecords "a.test."
           {[ dns.TypeNS := ["a.test. 3600 IN NS ns1.test."];
              dns.TypeA := ["a.test. 3600 IN A 192.0.2.1"] ]} ]}
        : gmap string (records string)) !! k = Some recs →
     well_formed sample.NewRR recs) ∧
  (∀ d0 dm1 dom m1 typ v m2 dm2,
     ascii_upper typ ∉ supported_names →
     data_UnmarshalJSON sample.NewRR sample.Fqdn sample.Quote
       ascii_upper ascii_lower "3600" d0
       (inr (dm1 ++ (dom, inr (m1 ++ (typ, v) :: m2)) :: dm2) : string + _) =
     data_UnmarshalJSON sample.NewRR sample.Fqdn sample.Quote
       ascii_upper ascii_lower "3600" d0
       (inr (dm1 ++ (dom, inr (m1 ++ m2)) :: dm2))).
Proof.
  apply (normalization_type_map sample.NewRR sample.Fqdn sample.Quote
           ascii_upper ascii_lower "3600" ascii_upper_idemp
           ∅ _ (inr sample.mixed_case) []).
  - intros k recs Hk. rewrite lookup_empty in Hk. discriminate.
  - vm_compute. reflexivity.
Defined.

(** The document whose second domain holds a rejected line. *)
Lemma normalization_aborts_witness :
  ∃ d' err out dm1 dom1 j1 dm2 rt',
    data_UnmarshalJSON sample.NewRR sample.Fqdn sample.Quote
      ascii_upper ascii_lower "3600" (Some ∅) (inr sample.two_domains)
    = (Some d', Some err, out) ∧
    sample.two_domains = dm1 ++ (dom1, j1) :: dm2 ∧
    range_domains sample.NewRR sample.Fqdn sample.Quote
      ascii_upper ascii_lower "3600" dm1 ∅ = (d', None, []) ∧
    records_UnmarshalJSON sample.NewRR sample.Quote ascii_upper "3600"
      (mkRecords (sample.Fqdn (ascii_lower dom1)) ∅) j1
    = (rt', Some err, out) ∧
    match err with
    | errRR e0 =>
        ∃ line, (sample.NewRR line).2 = Some e0 ∧
                out = [attempt_line sample.Quote line]
    | errJson _ => out = []
    | errNilMapUnmarshal => False
    end ∧
    ((∅ : gmap string (records string)) = ∅ →
     main_load sample.NewRR sample.Fqdn sample.Quote
       ascii_upper ascii_lower "3600" (inr sample.two_domains) = Fatal err).
Proof.
  apply (normalization_aborts sample.NewRR sample.Fqdn sample.Quote
           ascii_upper ascii_lower "3600" ascii_upper_idemp
           ∅ sample.two_domains "bad.test"
           [("A", [Some (sample.value_only "!")])]).
  - apply list_elem_of_further, list_elem_of_here.
  - exists "A", [Some (sample.value_only "!")], (sample.value_only "!").
    split; [apply list_elem_of_here|]. split; [apply list_elem_of_here|].
    split; eexists; vm_compute; reflexivity.
Defined.

(** C5 as the specification states it fails on the document
    <<{"good.test": {"A": [{"value": "192.0.2.1"}]},
       "bad.test": {"A": [{"value": "!"}]}}>> when [good.test] is visited
    first: the call returns the error, and the map it was given holds the
    record set of [good.test.], the entries parsed before the failure. The
    error is the one the RR constructor returned; the rejected line is in
    the log, not in the error. *)
Lemma normalization_leaves_partial_store :
  let good : gmap string (records string) :=
    {[ "good.test." :=
       mkRecords "good.test."
         {[ dns.TypeA := ["good.test. 3600 IN A 192.0.2.1"] ]} ]} in
  data_UnmarshalJSON sample.NewRR sample.Fqdn sample.Quote
    ascii_upper ascii_lower "3600" (Some ∅) (inr sample.two_domains)
  = (Some good, Some (errRR "bad rdata"),
     [attempt_line sample.Quote "bad.test. 3600 IN A !"]) ∧
  good ≠ ∅ ∧
  sample.NewRR "bad.test. 3600 IN A !" = (None, Some "bad rdata").
Proof.
  split; [vm_compute; reflexivity|]. split; [|reflexivity].
  intros Hempty. apply (f_equal (lookup "good.test.")) in Hempty.
  vm_compute in Hempty. discriminate.
Qed.


(** *** Instances of the further properties *)

(** The two-domain document, loaded. *)
Example load_a_and_b :
  data_UnmarshalJSON sample.NewRR sample.Fqdn sample.Quote
    ascii_upper ascii_lower "3600" (Some ∅)
    (inr sample.a_and_b : string + _)
  = (Some {[ "a.test." :=
             mkRecords "a.test."
               {[ dns.TypeNS := ["a.test. 3600 IN NS ns1.test.";
                                 "a.test. 3600 IN NS ns2.test.";
                                 "a.test. 3600 IN NS ns3.test."];
                  dns.TypeA := ["a.test. 3600 IN A 192.0.2.1"] ]};
             "b.test." :=
             mkRecords "b.test."
               {[ dns.TypeTXT :=
                    ["b.test. 3600 IN TXT " +:+ sample.Quote "hello world"];
                  dns.TypeA := ["b.test. 3600 IN A 192.0.2.9"] ]} ]},
     None, []).
Proof. vm_compute. reflexivity. Qed.

(** [main] on the sample files. *)
Example main_on_sample_files :
  main_startup sample.NewRR sample.Fqdn sample.Quote ascii_upper ascii_lower
    "3600" true "zone.json" "/etc/resolv.conf"
    sample.ClientConfigFromFile sample.ReadFile
  = Listening (Some (sample.Servers, "53"))
      (default ∅
         (data_UnmarshalJSON sample.NewRR sample.Fqdn sample.Quote
            ascii_upper ascii_lower "3600" (Some ∅)
            (inr sample.a_and_b : string + _)).1.1).
Proof. vm_compute. reflexivity. Qed.

Example main_without_data_file :
  main_startup sample.NewRR sample.Fqdn sample.Quote ascii_upper ascii_lower
    "3600" true "" "/etc/resolv.conf"
    sample.ClientConfigFromFile sample.ReadFile
  = Exited fatalDataFileRequired.
Proof. reflexivity. Qed.

(** X1 on the type map of [a.test]. *)
Lemma records_UnmarshalJSON_contents_witness :
  let recs := mkRecords "a.test." ∅ in
  let recs' :=
    (records_UnmarshalJSON sample.NewRR sample.Quote ascii_upper "3600"
       recs (inr sample.a_test_types : string + _)).1.1 in
  fqdn recs' = fqdn recs ∧ ([] : list string) = [] ∧
  ∀ t, data recs' !! t =
       extended (data recs !! t)
         (contribution sample.NewRR sample.Quote ascii_upper "3600"
            (fqdn recs) t sample.a_test_types).
Proof.
  apply (records_UnmarshalJSON_contents sample.NewRR sample.Quote
           ascii_upper (JsonError := string) "3600" ascii_upper_idemp).
  vm_compute. reflexivity.
Defined.

Example contribution_of_ns :
  contribution sample.NewRR sample.Quote ascii_upper "3600" "a.test."
    dns.TypeNS sample.a_test_types
  = ["a.test. 3600 IN NS ns1.test."; "a.test. 3600 IN NS ns2.test.";
     "a.test. 3600 IN NS ns3.test."].
Proof. vm_compute. reflexivity. Qed.

(** X2 on the document whose second domain holds a rejected line. *)
Lemma data_UnmarshalJSON_ok_iff_witness :
  (data_UnmarshalJSON sample.NewRR sample.Fqdn sample.Quote
     ascii_upper ascii_lower "3600" (Some ∅)
     (inr sample.two_domains)).1.2 = None ↔
  ∀ dom j, (dom, j) ∈ sample.two_domains →
    ∃ m, j = inr m ∧
         ¬ rejected_in sample.NewRR sample.Quote ascii_upper "3600"
             (store_key sample.Fqdn ascii_lower dom) m.
Proof.
  apply (data_UnmarshalJSON_ok_iff sample.NewRR sample.Fqdn sample.Quote
           ascii_upper ascii_lower "3600" ascii_upper_idemp).
Defined.

(** X3 on the type map of [B.test], visited in the reverse order. *)
Lemma records_UnmarshalJSON_order_witness :
  let recs := mkRecords "b.test." ∅ in
  records_UnmarshalJSON sample.NewRR sample.Quote ascii_upper "3600"
    recs (inr (reverse sample.b_test_types) : string + _)
  = ((records_UnmarshalJSON sample.NewRR sample.Quote ascii_upper "3600"
        recs (inr sample.b_test_types : string + _)).1.1, None, []).
Proof.
  apply (records_UnmarshalJSON_order sample.NewRR sample.Quote
           ascii_upper (JsonError := string) "3600" ascii_upper_idemp
           _ _ sample.b_test_types).
  - apply perm_swap.
  - refine (bool_decide_unpack _ _). vm_compute. exact I.
  - vm_compute. reflexivity.
Defined.

(** X4 on the two-domain document and the record set stored for
    [B.test]. *)
Lemma data_UnmarshalJSON_fqdn_witness :
  let d' :=
    default ∅
      (data_UnmarshalJSON sample.NewRR sample.Fqdn sample.Quote
         ascii_upper ascii_lower "3600" (Some ∅)
         (inr sample.a_and_b : string + _)).1.1 in
  let recs :=
    mkRecords "b.test."
      {[ dns.TypeTXT :=
           ["b.test. 3600 IN TXT " +:+ sample.Quote "hello world"];
         dns.TypeA := ["b.test. 3600 IN A 192.0.2.9"] ]} in
  d' !! "b.test." = Some recs ∧ fqdn recs = "b.test.".
Proof.
  intros d' recs.
  assert (d' !! "b.test." = Some recs) as Hlookup
    by (vm_compute; reflexivity).
  split; [exact Hlookup|].
  apply (data_UnmarshalJSON_fqdn sample.NewRR sample.Fqdn sample.Quote
           ascii_upper ascii_lower "3600" ∅ d'
           (inr sample.a_and_b : string + _) None [])
    with (k := "b.test."); [| |exact Hlookup].
  - intros k recs0 Hk. rewrite lookup_empty in Hk. discriminate.
  - vm_compute. reflexivity.
Defined.

(** X5 on the document that spells one domain twice: the second entry is
    the one stored. *)
Lemma data_UnmarshalJSON_last_wins_witness :
  let d' : gmap string (records string) :=
    {[ "a.test." :=
       mkRecords "a.test." {[ dns.TypeA := ["a.test. 3600 IN A 192.0.2.2"] ]} ]}
  in
  (∃ rt,
     records_UnmarshalJSON sample.NewRR sample.Quote ascii_upper "3600"
       (mkRecords (store_key sample.Fqdn ascii_lower "a.test") ∅)
       (inr [("a", [Some (sample.value_only "192.0.2.2")])] : string + _)
     = (rt, None, []) ∧
     d' !! store_key sample.Fqdn ascii_lower "a.test" = Some rt) ∧
  ∀ k,
    (∀ dom0 j0, (dom0, j0) ∈ sample.same_domain_twice →
                store_key sample.Fqdn ascii_lower dom0 ≠ k) →
    d' !! k = (∅ : gmap string (records string)) !! k.
Proof.
  apply (data_UnmarshalJSON_last_wins sample.NewRR sample.Fqdn sample.Quote
           ascii_upper ascii_lower "3600" ∅ _
           [("A.Test", inr [("a", [Some (sample.value_only "192.0.2.1")])])]
           [] "a.test"
           (inr [("a", [Some (sample.value_only "192.0.2.2")])]) []).
  - vm_compute. reflexivity.
  - intros dom2 j2 Hin. by apply not_elem_of_nil in Hin.
Defined.

(** X6 on the two-domain document, visited in the reverse order. *)
Lemma data_UnmarshalJSON_order_witness :
  data_UnmarshalJSON sample.NewRR sample.Fqdn sample.Quote
    ascii_upper ascii_lower "3600" (Some ∅)
    (inr (reverse sample.a_and_b) : string + _)
  = data_UnmarshalJSON sample.NewRR sample.Fqdn sample.Quote
      ascii_upper ascii_lower "3600" (Some ∅)
      (inr sample.a_and_b : string + _).
Proof.
  rewrite load_a_and_b.
  apply (data_UnmarshalJSON_order sample.NewRR sample.Fqdn sample.Quote
           ascii_upper ascii_lower "3600" ∅ _ sample.a_and_b).
  - apply perm_swap.
  - refine (bool_decide_unpack _ _). vm_compute. exact I.
  - apply load_a_and_b.
Defined.

(** X8: a field named [host] is not read. *)
Lemma rrFromMap_other_fields_witness :
  rrFromMap sample.NewRR sample.Quote "3600" "A" "a.test."
    (Some (<["host" := "mail"]> sample.www_record))
  = rrFromMap sample.NewRR sample.Quote "3600" "A" "a.test."
      (Some sample.www_record).
Proof.
  apply (rrFromMap_other_fields sample.NewRR sample.Quote "3600").
  refine (bool_decide_unpack _ _). vm_compute. exact I.
Defined.

(** X9 on the two-question query, the type map visited in two ways. *)
Lemma handler_visiting_order_witness :
  same_but_answer_order
    (handler_reply sample.SetReply sample.a_test sample.visit
       sample.any_query)
    (handler_reply sample.SetReply sample.a_test
       (λ _, map_to_list (data sample.a_test)) sample.any_query) ∧
  ((∀ q, q ∈ dns.Question_ sample.any_query →
         dns.Qtype q ≠ dns.TypeANY) →
   handler_reply sample.SetReply sample.a_test sample.visit sample.any_query
   = handler_reply sample.SetReply sample.a_test
       (λ _, map_to_list (data sample.a_test)) sample.any_query).
Proof.
  apply (handler_visiting_order sample.SetReply).
  - intros i. unfold sample.visit. destruct (Nat.even i).
    + reflexivity.
    + apply reverse_Permutation.
  - intros i. reflexivity.
Defined.

(** X10 on the two-domain document and the record set of [a.test.]. *)
Lemma load_then_query_witness :
  ∃ recs,
    default ∅
      (data_UnmarshalJSON sample.NewRR sample.Fqdn sample.Quote
         ascii_upper ascii_lower "3600" (Some ∅)
         (inr sample.a_and_b : string + _)).1.1
    !! store_key sample.Fqdn ascii_lower "a.test" = Some recs ∧
    ∀ visit r,
      (∀ q, q ∈ dns.Question_ r → dns.Qtype q ≠ dns.TypeANY) →
      dns.Answer (handler_reply sample.SetReply recs visit r) =
        concat ((λ q, contribution sample.NewRR sample.Quote ascii_upper
                        "3600" (store_key sample.Fqdn ascii_lower "a.test")
                        (dns.Qtype q) sample.a_test_types)
                <$> dns.Question_ r) ∧
      dns.Ns (handler_reply sample.SetReply recs visit r) =
        contribution sample.NewRR sample.Quote ascii_upper "3600"
          (store_key sample.Fqdn ascii_lower "a.test") dns.TypeNS
          sample.a_test_types ∧
      dns.Extra (handler_reply sample.SetReply recs visit r) =
        contribution sample.NewRR sample.Quote ascii_upper "3600"
          (store_key sample.Fqdn ascii_lower "a.test") dns.TypeA
          sample.a_test_types ++
        contribution sample.NewRR sample.Quote ascii_upper "3600"
          (store_key sample.Fqdn ascii_lower "a.test") dns.TypeAAAA
          sample.a_test_types.
Proof.
  apply (load_then_query sample.NewRR sample.Fqdn sample.Quote
           ascii_upper ascii_lower (JsonError := string) "3600"
           sample.SetReply
           (λ _ _, eq_refl) (λ _ _, eq_refl) (λ _ _, eq_refl)
           ascii_upper_idemp ∅ _ []
           [("B.test", inr sample.b_test_types)] "a.test"
           sample.a_test_types []).
  - vm_compute. reflexivity.
  - intros dom2 j2 Hin. apply list_elem_of_singleton in Hin.
    injection Hin as -> _. vm_compute. discriminate.
Defined.

(** X11 on the three upstream servers. *)
Lemma proxyHandler_cases_witness :
  (true = true ∧
   ∃ n ns m0 w',
     sample.Servers !! n = Some ns ∧
     (∀ i ns', (i < n)%nat → sample.Servers !! i = Some ns' →
               (exchange_nr sample.Servers "53" sample.Exchange i ns'
                  (sample.query dns.TypeA) 0%nat).1.2 ≠ None) ∧
     exchange_nr sample.Servers "53" sample.Exchange n ns
       (sample.query dns.TypeA) 0%nat = (m0, None, w') ∧
     proxyHandler true sample.Servers "53" sample.SetRcode sample.Exchange
       (sample.query dns.TypeA) 0%nat
     = mkEffects m0 (sample.query dns.TypeA) w'
         (address "53" <$> take (S n) sample.Servers)) ∨
  (∃ m,
     dns.Rcode m = dns.RcodeServerFailure ∧
     proxyHandler true sample.Servers "53" sample.SetRcode sample.Exchange
       (sample.query dns.TypeA) 0%nat
     = mkEffects (Some m)
         (dns.set_Rcode (sample.query dns.TypeA) dns.RcodeServerFailure)
         (world_after sample.Exchange (address "53" <$> sample.Servers)
            (sample.query dns.TypeA) 0%nat)
         (address "53" <$> sample.Servers)).
Proof.
  apply (proxyHandler_cases true sample.Servers "53" sample.SetRcode
           sample.Exchange).
  intros m r rcode. reflexivity.
Defined.

(** X12 with an upstream server that answers "no such name". *)
Lemma relayed_reply_logged_as_success_witness :
  written (serve_root true true sample.Servers "53" sample.SetRcode
             sample.Exchange_nxdomain sample.Question_String
             (sample.query dns.TypeA) 0%nat).1
  = Some sample.nxdomain_reply ∧
  (serve_root true true sample.Servers "53" sample.SetRcode
     sample.Exchange_nxdomain sample.Question_String
     (sample.query dns.TypeA) 0%nat).2
  = map (λ q, mkLine cProxied cSuccess
                (TrimLeft (sample.Question_String q) ";"))
      (dns.Question_ (sample.query dns.TypeA)).
Proof.
  apply (relayed_reply_logged_as_success true true sample.Servers "53"
           sample.SetRcode sample.Exchange_nxdomain sample.Question_String
           (sample.query dns.TypeA) 0%nat 0%nat "198.51.100.1"
           (Some sample.nxdomain_reply) 1%nat).
  - reflexivity.
  - reflexivity.
  - intros i ns' Hi. lia.
  - reflexivity.
  - reflexivity.
Defined.

(** X13 on the sample files. *)
Lemma main_listening_witness :
  let d :=
    default ∅
      (data_UnmarshalJSON sample.NewRR sample.Fqdn sample.Quote
         ascii_upper ascii_lower "3600" (Some ∅)
         (inr sample.a_and_b : string + _)).1.1 in
  loaded_from_file sample.NewRR sample.Fqdn sample.Quote
    ascii_upper ascii_lower "3600" "zone.json" sample.ReadFile d ∧
  ∃ servers port,
    Some (sample.Servers, "53") = Some (servers, port) ∧
    sample.ClientConfigFromFile "/etc/resolv.conf" = inr (servers, port) ∧
    servers ≠ [].
Proof.
  apply (proj1 (main_listening sample.NewRR sample.Fqdn sample.Quote
           ascii_upper ascii_lower "3600" true "zone.json" "/etc/resolv.conf"
           sample.ClientConfigFromFile sample.ReadFile sample_Fqdn_dot
           (Some (sample.Servers, "53")) _)).
  vm_compute. reflexivity.
Defined.

(** X14 on the sample files and servers. *)
Lemma started_proxy_exchanges_witness :
  ∃ ns rest,
    sample.Servers !! 0%nat = Some ns ∧
    exchanged (proxyHandler true sample.Servers "53" sample.SetRcode
                 sample.Exchange (sample.query dns.TypeA) 0%nat)
    = address "53" ns :: rest.
Proof.
  apply (started_proxy_exchanges sample.NewRR sample.Fqdn sample.Quote
           ascii_upper ascii_lower "3600" true sample.Servers "53"
           sample.SetRcode sample.Exchange "zone.json" "/etc/resolv.conf"
           sample.ClientConfigFromFile sample.ReadFile
           (default ∅
              (data_UnmarshalJSON sample.NewRR sample.Fqdn sample.Quote
                 ascii_upper ascii_lower "3600" (Some ∅)
                 (inr sample.a_and_b : string + _)).1.1)).
  - vm_compute. reflexivity.
  - reflexivity.
Defined.
